(** * The battle-page video viewer: gesture-driven dismissal

    A shallow embedding of [src/app/battle/page.tsx].  The React component
    [BattlePage] keeps its state in hooks ([useState], [useRef]); here the
    hooks become the fields of one record, and every event handler becomes
    a function from the record before the event to the record after it.

    Numbers.  JavaScript numbers are IEEE doubles; they are modelled as
    exact rationals ([Q]), so that [0.4], [0.6], ... are the fractions the
    source writes.  Rounding is outside the model.

    Time.  [setTimeout] is modelled by a millisecond clock [now] and the
    list [timers] of the deadlines of the pending callbacks.  The only
    callback the component ever schedules is [closeHard].

    The admin form ([src/app/admin/page.tsx]) and the tab menu
    ([src/app/layout.tsx]) follow in the modules [Admin] and [Layout]. *)

From Stdlib Require Import QArith Qminmax Qabs Lqa Lia List Bool NArith Arith.
From Stdlib Require Import Qround.
From Stdlib Require String Ascii.
Import ListNotations.
Import String.StringSyntax.

Open Scope Q_scope.

(** ** Data *)

(** A JavaScript string is a sequence of UTF-16 code units. *)
Definition jsstring := list N.

(** [type VideoItem] *)
Record VideoItem := mkVideoItem {
  id : jsstring;
  title : jsstring;
  src : jsstring;
  thumb : jsstring;
  opponent : option jsstring;
  matchDate : option jsstring;
  contributors : option (list jsstring)
}.

(** The value held by [touchStartRef]: [{ x: number; y: number }]. *)
Record Point := mkPoint { x : Q; y : Q }.

Definition WHEEL_CLOSE_THRESHOLD : Q := 120.
Definition SWIPE_X_THRESHOLD : Q := 80.
Definition SWIPE_Y_THRESHOLD : Q := 100.
Definition SWIPE_X_DISTANCE : Q := 200.
Definition SWIPE_Y_DISTANCE : Q := 240.

(** The fallback delay passed to [setTimeout] in [closeSoft], in ms. *)
Definition CLOSE_DELAY : nat := 260.

(** The hooks of [BattlePage] that the viewer uses, and the timer queue. *)
Record Viewer := mkViewer {
  active : option VideoItem;
  isPlaying : bool;
  isClosing : bool;
  dragX : Q;
  dragY : Q;
  wheelAccumRef : Q;
  touchStartRef : option Point;
  now : nat;
  timers : list nat
}.

(** State setters, one per hook. *)
Definition setActive (v : option VideoItem) (s : Viewer) : Viewer :=
  mkViewer v (isPlaying s) (isClosing s) (dragX s) (dragY s)
           (wheelAccumRef s) (touchStartRef s) (now s) (timers s).

Definition setIsPlaying (b : bool) (s : Viewer) : Viewer :=
  mkViewer (active s) b (isClosing s) (dragX s) (dragY s)
           (wheelAccumRef s) (touchStartRef s) (now s) (timers s).

Definition setIsClosing (b : bool) (s : Viewer) : Viewer :=
  mkViewer (active s) (isPlaying s) b (dragX s) (dragY s)
           (wheelAccumRef s) (touchStartRef s) (now s) (timers s).

Definition setDragX (q : Q) (s : Viewer) : Viewer :=
  mkViewer (active s) (isPlaying s) (isClosing s) q (dragY s)
           (wheelAccumRef s) (touchStartRef s) (now s) (timers s).

Definition setDragY (q : Q) (s : Viewer) : Viewer :=
  mkViewer (active s) (isPlaying s) (isClosing s) (dragX s) q
           (wheelAccumRef s) (touchStartRef s) (now s) (timers s).

Definition set_wheelAccumRef (q : Q) (s : Viewer) : Viewer :=
  mkViewer (active s) (isPlaying s) (isClosing s) (dragX s) (dragY s)
           q (touchStartRef s) (now s) (timers s).

Definition set_touchStartRef (p : option Point) (s : Viewer) : Viewer :=
  mkViewer (active s) (isPlaying s) (isClosing s) (dragX s) (dragY s)
           (wheelAccumRef s) p (now s) (timers s).

(** [setTimeout(() => closeHard(), delay)]: one more pending deadline. *)
Definition setTimeout (delay : nat) (s : Viewer) : Viewer :=
  mkViewer (active s) (isPlaying s) (isClosing s) (dragX s) (dragY s)
           (wheelAccumRef s) (touchStartRef s) (now s)
           (timers s ++ [(now s + delay)%nat]).

(** Statements of a handler body run top to bottom. *)
Notation "s |> f" := (f s) (at level 45, left associativity, only parsing).

(** Strict comparison [a > b] on numbers. *)
Definition Qgtb (a b : Q) : bool := negb (Qle_bool a b).

(** ** The close lifecycle *)

Definition closeHard (s : Viewer) : Viewer :=
  s |> setActive None
    |> setIsPlaying false
    |> setIsClosing false
    |> setDragX 0
    |> setDragY 0
    |> set_wheelAccumRef 0
    |> set_touchStartRef None.

Definition closeSoft (s : Viewer) : Viewer :=
  s |> setIsClosing true
    |> setTimeout CLOSE_DELAY.

(** [onKeyDown]: only the Escape key closes. *)
Definition onKeyDown (isEscape : bool) (s : Viewer) : Viewer :=
  if isEscape then closeSoft s else s.

(** ** Gesture handlers *)

Definition handleWheel (deltaY : Q) (s : Viewer) : Viewer :=
  if negb (isPlaying s) then s
  else if Qle_bool deltaY 0 then s
  else
    let s1 :=
      s |> set_wheelAccumRef (wheelAccumRef s + deltaY)
        |> setDragY (Qmin (dragY s + deltaY * 0.4) SWIPE_Y_DISTANCE) in
    if Qle_bool WHEEL_CLOSE_THRESHOLD (wheelAccumRef s1)
    then closeSoft s1
    else s1.

Definition handleTouchStart (t : Point) (s : Viewer) : Viewer :=
  if negb (isPlaying s) then s
  else
    s |> set_touchStartRef (Some t)
      |> setDragX 0
      |> setDragY 0.

Definition handleTouchMove (t : Point) (s : Viewer) : Viewer :=
  if negb (isPlaying s) then s
  else
    match touchStartRef s with
    | None => s
    | Some a =>
        let dx := Qmax 0 (x t - x a) in
        let dy := Qmax 0 (y t - y a) in
        s |> setDragX dx |> setDragY dy
    end.

(** The release test of [handleTouchEnd]. *)
Definition shouldClose (dx dy : Q) : bool :=
  (Qgtb dx SWIPE_X_THRESHOLD && Qgtb dx (Qabs dy))
  || (Qgtb dy SWIPE_Y_THRESHOLD && Qle_bool (Qabs dx) dy).

Definition handleTouchEnd (s : Viewer) : Viewer :=
  if negb (isPlaying s) then s
  else
    match touchStartRef s with
    | None => s
    | Some _ =>
        (if shouldClose (dragX s) (dragY s)
         then closeSoft s
         else s |> setDragX 0 |> setDragY 0)
        |> set_touchStartRef None
    end.

(** ** Playback and the transition signal *)

Definition onPlay (s : Viewer) : Viewer :=
  s |> setIsPlaying true |> set_wheelAccumRef 0.

Definition onPause (s : Viewer) : Viewer :=
  s |> setIsPlaying false.

(** [onTransitionEnd]; [direct] is [e.target === e.currentTarget]. *)
Definition onTransitionEnd (direct : bool) (s : Viewer) : Viewer :=
  if isClosing s && direct then closeHard s else s.

(** ** Timers

    A timer whose deadline has been reached runs its callback, [closeHard],
    and leaves the queue.  [tick] lets one millisecond pass. *)

Definition due (t deadline : nat) : bool := (deadline <=? t)%nat.

Definition runTimers (s : Viewer) : Viewer :=
  let fired := filter (due (now s)) (timers s) in
  let pending := filter (fun d => negb (due (now s) d)) (timers s) in
  fold_left (fun st _ => closeHard st) fired
    (mkViewer (active s) (isPlaying s) (isClosing s) (dragX s) (dragY s)
              (wheelAccumRef s) (touchStartRef s) (now s) pending).

Definition tick (s : Viewer) : Viewer :=
  runTimers
    (mkViewer (active s) (isPlaying s) (isClosing s) (dragX s) (dragY s)
              (wheelAccumRef s) (touchStartRef s) (S (now s)) (timers s)).

(** ** Events

    What the browser can deliver to the component.  The overlay, the video
    element and the key listener exist only while [active] is set (the
    modal is rendered under [active && ...], the listener is installed by
    the effect on [active]); a card of the grid can always be clicked. *)

Inductive Event : Type :=
| CardClick (v : VideoItem)
| CloseClick
| KeyDown (isEscape : bool)
| Wheel (deltaY : Q)
| TouchStart (t : Point)
| TouchMove (t : Point)
| TouchEnd
| VideoPlay
| VideoPause
| TransitionEnd (direct : bool)
| Tick.

Definition dispatch (e : Event) (s : Viewer) : Viewer :=
  match e with
  | CardClick v => setActive (Some v) s
  | CloseClick => closeSoft s
  | KeyDown k => onKeyDown k s
  | Wheel d => handleWheel d s
  | TouchStart t => handleTouchStart t s
  | TouchMove t => handleTouchMove t s
  | TouchEnd => handleTouchEnd s
  | VideoPlay => onPlay s
  | VideoPause => onPause s
  | TransitionEnd direct => onTransitionEnd direct s
  | Tick => tick s
  end.

Definition step (e : Event) (s : Viewer) : Viewer :=
  match e with
  | CardClick _ | Tick => dispatch e s
  | _ => match active s with
         | Some _ => dispatch e s
         | None => s
         end
  end.

Definition run (es : list Event) (s : Viewer) : Viewer :=
  fold_left (fun st e => step e st) es s.

(** The component as first rendered: every hook at its initial value. *)
Definition initial : Viewer :=
  mkViewer None false false 0 0 0 None 0%nat [].

Definition reachable (s : Viewer) : Prop :=
  exists es, s = run es initial.

(** ** The visual mapping (computed on every render) *)

Definition progressX (s : Viewer) : Q := Qmin (dragX s / SWIPE_X_DISTANCE) 1.
Definition progressY (s : Viewer) : Q := Qmin (dragY s / SWIPE_Y_DISTANCE) 1.
Definition progress (s : Viewer) : Q := Qmax (progressX s) (progressY s).
Definition overlayAlpha (s : Viewer) : Q := 0.8 * (1 - 0.6 * progress s).

Definition translateY (s : Viewer) : Q := dragY s * 0.6.
Definition translateX (s : Viewer) : Q := dragX s * 0.5.
Definition scale (s : Viewer) : Q := 1 - 0.05 * progress s.

(** [modalStyle]: the [transform] string is kept as its three numbers. *)
Record CSSProperties := mkCSS {
  transform : Q * Q * Q;
  opacity : Q
}.

Definition modalStyle (s : Viewer) : CSSProperties :=
  mkCSS (translateX s, translateY s, scale s) (1 - 0.4 * progress s).

(** ** Client-side search *)

Section Search.

(** [String.prototype.toLowerCase] and [normalize("NFKC")] belong to the
    JavaScript runtime; the search is modelled for any behaviour of
    the two. *)
Variable toLowerCase : jsstring -> jsstring.
Variable normalizeNFKC : jsstring -> jsstring.

(** The character class of the [replace]: code units U+3041 .. U+3096,
    the hiragana from small A to small KE. *)
Definition isHiragana (c : N) : bool :=
  ((0x3041 <=? c) && (c <=? 0x3096))%N.

(** [String.fromCharCode] keeps the low 16 bits. *)
Definition fromCharCode (n : N) : N := (n mod 0x10000)%N.

Definition kana (c : N) : N :=
  if isHiragana c then fromCharCode (c + 0x60) else c.

Definition norm (s : jsstring) : jsstring :=
  map kana (normalizeNFKC (toLowerCase s)).

Fixpoint startsWith (f q : jsstring) {struct q} : bool :=
  match q, f with
  | [], _ => true
  | _ :: _, [] => false
  | c :: q', d :: f' => (c =? d)%N && startsWith f' q'
  end.

(** [f.includes(q)] *)
Fixpoint includes (f q : jsstring) : bool :=
  startsWith f q ||
  match f with
  | [] => false
  | _ :: f' => includes f' q
  end.

(** [Boolean(v)] on [string | undefined]: only a non-empty string. *)
Definition truthy (o : option jsstring) : bool :=
  match o with
  | Some (_ :: _) => true
  | _ => false
  end.

(** [String(v)]; [undefined] prints as the word. *)
Definition String_ (o : option jsstring) : jsstring :=
  match o with
  | Some s => s
  | None => [117; 110; 100; 101; 102; 105; 110; 101; 100]%N
  end.

Definition orEmpty (o : option (list jsstring)) : list jsstring :=
  match o with
  | Some l => l
  | None => []
  end.

(** The array literal of the filter callback, before [.filter(Boolean)]. *)
Definition rawFields (v : VideoItem) : list (option jsstring) :=
  [Some (title v); opponent v; matchDate v]
    ++ map Some (orEmpty (contributors v)).

Definition fields (v : VideoItem) : list jsstring :=
  map (fun o => norm (String_ o)) (filter truthy (rawFields v)).

Definition isEmpty (s : jsstring) : bool :=
  match s with
  | [] => true
  | _ => false
  end.

Definition filtered (list : Datatypes.list VideoItem) (qstr : jsstring)
  : Datatypes.list VideoItem :=
  let qn := norm qstr in
  filter
    (fun v =>
       if isEmpty qn then true
       else existsb (fun f => includes f qn) (fields v))
    list.

End Search.

(** ** What the search is meant to select *)

(** [q] occurs in [f] as a contiguous run of code units. *)
Definition contains (f q : jsstring) : Prop :=
  exists pre post, f = pre ++ q ++ post.

(** [f] is a field of [v] that is present: the title, the opponent, the
    match date or a contributor, and not the empty string. *)
Definition presentField (v : VideoItem) (f : jsstring) : Prop :=
  f <> []
  /\ (f = title v
      \/ opponent v = Some f
      \/ matchDate v = Some f
      \/ exists cs, contributors v = Some cs /\ In f cs).

(** [l'] keeps, in the order of [l], exactly the items of [l] that
    satisfy [P]. *)
Inductive Selects (P : VideoItem -> Prop)
  : list VideoItem -> list VideoItem -> Prop :=
| Selects_nil : Selects P [] []
| Selects_keep v l l' : P v -> Selects P l l' -> Selects P (v :: l) (v :: l')
| Selects_drop v l l' : ~ P v -> Selects P l l' -> Selects P (v :: l) l'.

(** The item has a present field whose normal form contains [qn]. *)
Definition matches (toLowerCase normalizeNFKC : jsstring -> jsstring)
  (v : VideoItem) (qn : jsstring) : Prop :=
  exists f, presentField v f
            /\ contains (norm toLowerCase normalizeNFKC f) qn.

(** ** Vocabulary of the properties, and sample states *)

(** The release condition as the specification writes it. *)
Definition commitCondition (dx dy : Q) : Prop :=
  (SWIPE_X_THRESHOLD < dx /\ Qabs dy < dx)
  \/ (SWIPE_Y_THRESHOLD < dy /\ Qabs dx <= dy).

(** The lifecycle state Closed: nothing is shown and nothing is tracked. *)
Definition Closed (s : Viewer) : Prop :=
  active s = None /\ isPlaying s = false /\ isClosing s = false
  /\ dragX s = 0 /\ dragY s = 0 /\ wheelAccumRef s = 0
  /\ touchStartRef s = None.

(** A video item and a viewer that is open and playing, for examples. *)
Definition sampleItem : VideoItem :=
  mkVideoItem [49%N] [109%N; 97%N; 116%N; 99%N; 104%N] [] [] None None
              (Some []).

Definition playing (dx dy w : Q) (anchor : option Point) : Viewer :=
  mkViewer (Some sampleItem) true false dx dy w anchor 0%nat [].

Definition isGesture (e : Event) : bool :=
  match e with
  | Wheel _ | TouchStart _ | TouchMove _ | TouchEnd => true
  | _ => false
  end.

Definition paused (dx dy w : Q) (anchor : option Point) : Viewer :=
  mkViewer (Some sampleItem) false false dx dy w anchor 0%nat [].

(** A run of wheel events with nothing in between. *)
Definition wheels (ds : list Q) (s : Viewer) : Viewer :=
  fold_left (fun st d => handleWheel d st) ds s.

(** How often [closeSoft] ran between [s] and [s'], read off the timer
    queue (see [closeSoft_schedules_one]; no timer fires during wheel
    events). *)
Definition closeSoftCalls (s s' : Viewer) : nat :=
  (length (timers s') - length (timers s))%nat.

(** The ticks of a run that call [closeSoft]: those with deltaY > 0 that
    leave the accumulator at or above the threshold. *)
Fixpoint commitTicks (acc : Q) (ds : list Q) : nat :=
  match ds with
  | [] => 0%nat
  | d :: ds' =>
      if Qle_bool d 0 then commitTicks acc ds'
      else if Qle_bool WHEEL_CLOSE_THRESHOLD (acc + d)
           then S (commitTicks (acc + d) ds')
           else commitTicks (acc + d) ds'
  end.

Definition dragNonneg (s : Viewer) : Prop := 0 <= dragX s /\ 0 <= dragY s.

Definition swipeFar : list Event :=
  [CardClick sampleItem; VideoPlay;
   TouchStart (mkPoint 0 0); TouchMove (mkPoint 500 500)].

Definition isTick (e : Event) : bool :=
  match e with
  | Tick => true
  | _ => false
  end.

(** Milliseconds that pass during a trace. *)
Definition ticks (es : list Event) : nat := length (filter isTick es).

(** 260 ms in which nothing but wheel noise arrives: no completion signal. *)
Definition noSignal : list Event :=
  Wheel 3 :: repeat Tick 130 ++ [TouchEnd] ++ repeat Tick 130.

(** A lowercasing that knows the ASCII letters only, and a normalization
    that changes nothing: stand-ins for the runtime's, for examples. *)
Definition asciiLower (s : jsstring) : jsstring :=
  map (fun c => if ((65 <=? c) && (c <=? 90))%N then (c + 32)%N else c) s.

Definition noNFKC (s : jsstring) : jsstring := s.

(** Two items: one titled in hiragana (NE KO), one titled Dog with an
    opponent CAT.  The query is NE KO in katakana. *)
Definition itemNeko : VideoItem :=
  mkVideoItem [49%N] [0x306D%N; 0x3053%N] [] [] None None
              (Some [[0x30BF%N; 0x30DE%N]]).

Definition itemDog : VideoItem :=
  mkVideoItem [50%N] [68%N; 111%N; 103%N] [] []
              (Some [67%N; 65%N; 84%N]) None None.

Definition queryNeko : jsstring := [0x30CD%N; 0x30B3%N].

(** * The rest of the battle page *)

(** String literals of the source, as code units (ASCII only). *)
Definition js (s : String.string) : jsstring :=
  map Ascii.N_of_ascii (String.list_ascii_of_string s).

Arguments js s%_string_scope.

(** [a ?? b] *)
Definition nullish {A : Type} (a : option A) (b : A) : A :=
  match a with
  | Some v => v
  | None => b
  end.

(** ** Loading the list (the effect that runs once) *)

(** [type VideoDoc]: what [d.data()] holds.  Firestore may lack any field
    or hold [null] in it, which is why the loader guards each with [??];
    [None] stands for both. *)
Record VideoDoc := mkVideoDoc {
  doc_title : option jsstring;
  doc_src : option jsstring;
  doc_thumb : option jsstring;
  doc_opponent : option jsstring;
  doc_matchDate : option jsstring;
  doc_contributors : option (list jsstring)
}.

(** The callback of [snap.docs.map]; [d] is the document id and its data. *)
Definition toItem (d : jsstring * VideoDoc) : VideoItem :=
  let v := snd d in
  mkVideoItem (fst d)
              (nullish (doc_title v) [])
              (nullish (doc_src v) [])
              (nullish (doc_thumb v) [])
              (doc_opponent v)
              (doc_matchDate v)
              (Some (nullish (doc_contributors v) [])).

(** The gallery hooks: [list], [loading], [qstr]. *)
Record Gallery := mkGallery {
  list_ : list VideoItem;
  loading : bool;
  qstr : jsstring
}.

Definition initialGallery : Gallery := mkGallery [] true [].

(** The load effect: [snap] is [None] when sign-in or [getDocs] threw.
    [setLoading(false)] sits in the [finally]. *)
Definition loadVideos (snap : option (list (jsstring * VideoDoc)))
  (g : Gallery) : Gallery :=
  match snap with
  | Some docs => mkGallery (map toItem docs) false (qstr g)
  | None => mkGallery (list_ g) false (qstr g)
  end.

Definition setQstr (q : jsstring) (g : Gallery) : Gallery :=
  mkGallery (list_ g) (loading g) q.

(** ** What the page shows *)

(** One card of the grid: the key, the image source, the title, and the
    meta line (absent, or present with or without the date in it). *)
Record Card := mkCard {
  card_key : jsstring;
  card_src : jsstring;
  card_title : jsstring;
  card_metaLine : option (option jsstring)
}.

(** [v.thumb || "/placeholder-9x16.jpg"] *)
Definition cardSrc (v : VideoItem) : jsstring :=
  match thumb v with
  | [] => js "/placeholder-9x16.jpg"
  | _ :: _ => thumb v
  end.

(** [(v.matchDate || (v.contributors?.length ?? 0) > 0) && <div> ... </div>],
    the div holding [v.matchDate && <span>{v.matchDate}</span>]. *)
Definition cardMetaLine (v : VideoItem) : option (option jsstring) :=
  if truthy (matchDate v)
     || (0 <? length (orEmpty (contributors v)))%nat
  then Some (if truthy (matchDate v) then matchDate v else None)
  else None.

Definition card (v : VideoItem) : Card :=
  mkCard (id v) (cardSrc v) (title v) (cardMetaLine v).

Inductive MainView : Type :=
| LoadingIcon
| EmptyMessage
| Grid (cards : list Card).

Section Render.

Variable toLowerCase : jsstring -> jsstring.
Variable normalizeNFKC : jsstring -> jsstring.

(** The conditional under the search bar. *)
Definition mainView (g : Gallery) : MainView :=
  if loading g then LoadingIcon
  else
    match filtered toLowerCase normalizeNFKC (list_ g) (qstr g) with
    | [] => EmptyMessage
    | shown => Grid (map card shown)
    end.

End Render.

(** [qstr && <button> ... </button>]: the clear button. *)
Definition searchClearShown (g : Gallery) : bool := negb (isEmpty (qstr g)).

(** ** The Escape listener and the scroll lock

    The effect with dependencies [active, onKeyDown].  [onKeyDown] never
    changes ([closeHard], [closeSoft] and it are memoized on stable
    dependencies), so the effect re-runs exactly when [active] changes:
    first the clean-up the previous run returned, then the body. *)

Record Page := mkPage {
  viewer : Viewer;
  keydownListener : bool;
  bodyOverflowHidden : bool
}.

Definition isSome {A : Type} (o : option A) : bool :=
  match o with
  | Some _ => true
  | None => false
  end.

Definition strictEq (a b : jsstring) : bool :=
  if list_eq_dec N.eq_dec a b then true else false.

Definition sameOption {A : Type} (eqb : A -> A -> bool) (a b : option A)
  : bool :=
  match a, b with
  | Some u, Some v => eqb u v
  | None, None => true
  | _, _ => false
  end.

Definition sameList (a b : list jsstring) : bool :=
  if list_eq_dec (list_eq_dec N.eq_dec) a b then true else false.

(** Whether two values of [active] are the same.  Items are compared by
    content; React compares by identity, and re-running the effect for an
    equal item removes and re-adds the same listener and lock. *)
Definition sameItem (a b : VideoItem) : bool :=
  strictEq (id a) (id b) && strictEq (title a) (title b)
  && strictEq (src a) (src b) && strictEq (thumb a) (thumb b)
  && sameOption strictEq (opponent a) (opponent b)
  && sameOption strictEq (matchDate a) (matchDate b)
  && sameOption sameList (contributors a) (contributors b).

(** The clean-up returned by the effect body; none was returned when
    [active] was not set. *)
Definition effectCleanup (prev : option VideoItem) (p : Page) : Page :=
  match prev with
  | Some _ => mkPage (viewer p) false false
  | None => p
  end.

(** The effect body. *)
Definition effectBody (act : option VideoItem) (p : Page) : Page :=
  match act with
  | Some _ => mkPage (viewer p) true true
  | None => p
  end.

(** After a render: the effect re-runs if [active] changed. *)
Definition commitEffect (prev : option VideoItem) (p : Page) : Page :=
  if sameOption sameItem prev (active (viewer p)) then p
  else effectBody (active (viewer p)) (effectCleanup prev p).

(** Which events reach a handler: key presses while the listener is on the
    document, overlay and video events while the modal is rendered. *)
Definition delivered (e : Event) (p : Page) : bool :=
  match e with
  | CardClick _ | Tick => true
  | KeyDown _ => keydownListener p
  | _ => isSome (active (viewer p))
  end.

Definition pageStep (e : Event) (p : Page) : Page :=
  let v' := if delivered e p then dispatch e (viewer p) else viewer p in
  commitEffect (active (viewer p))
    (mkPage v' (keydownListener p) (bodyOverflowHidden p)).

Definition pageRun (es : list Event) (p : Page) : Page :=
  fold_left (fun st e => pageStep e st) es p.

Definition initialPage : Page := mkPage initial false false.

(** * The admin page ([src/app/admin/page.tsx]) *)

Module Admin.

(** [type FormState] *)
Inductive FormState : Type := idle | uploading | done | error.

(** What the page reads of a [File]. *)
Record File := mkFile { name : jsstring; type : jsstring }.

(** The hooks of [AdminPage]. *)
Record Form := mkForm {
  title : jsstring;
  opponent : jsstring;
  matchDate : jsstring;
  contrib1 : jsstring;
  contrib2 : jsstring;
  contrib3 : jsstring;
  thumbFile : option File;
  videoFile : option File;
  thumbPreview : option jsstring;
  state : FormState;
  progress : Z
}.

Definition initialForm : Form :=
  mkForm [] [] [] [] [] [] None None None idle 0.

Definition setState (st : FormState) (f : Form) : Form :=
  mkForm (title f) (opponent f) (matchDate f) (contrib1 f) (contrib2 f)
         (contrib3 f) (thumbFile f) (videoFile f) (thumbPreview f)
         st (progress f).

Definition setProgress (n : Z) (f : Form) : Form :=
  mkForm (title f) (opponent f) (matchDate f) (contrib1 f) (contrib2 f)
         (contrib3 f) (thumbFile f) (videoFile f) (thumbPreview f)
         (state f) n.

(** The nine setters after the comment that resets the form. *)
Definition resetInputs (f : Form) : Form :=
  mkForm [] [] [] [] [] [] None None None (state f) (progress f).

(** [handleThumbSelect]; [url] is what [URL.createObjectURL] returns. *)
Definition handleThumbSelect (createObjectURL : File -> jsstring)
  (file : option File) (f : Form) : Form :=
  match file with
  | None => f
  | Some picked =>
      mkForm (title f) (opponent f) (matchDate f) (contrib1 f) (contrib2 f)
             (contrib3 f) (Some picked) (videoFile f)
             (Some (createObjectURL picked)) (state f) (progress f)
  end.

(** The code units [String.prototype.trim] strips: ECMAScript's WhiteSpace
    and LineTerminator. *)
Definition isWhiteSpace (c : N) : bool :=
  ((9 <=? c) && (c <=? 13)
   || (c =? 32) || (c =? 0xA0) || (c =? 0x1680)
   || (0x2000 <=? c) && (c <=? 0x200A)
   || (c =? 0x2028) || (c =? 0x2029) || (c =? 0x202F) || (c =? 0x205F)
   || (c =? 0x3000) || (c =? 0xFEFF))%N.

Fixpoint trimStart (s : jsstring) : jsstring :=
  match s with
  | [] => []
  | c :: s' => if isWhiteSpace c then trimStart s' else s
  end.

Definition trim (s : jsstring) : jsstring :=
  rev (trimStart (rev (trimStart s))).

(** [Math.round]: the nearest integer, halves going up. *)
Definition Math_round (q : Q) : Z := Qfloor (q + 0.5).

(** The percentage shown for one [state_changed] snapshot. *)
Definition pct (snap : Q * Q) : Z :=
  let bytesTransferred := fst snap in
  let totalBytes := snd snap in
  Math_round ((bytesTransferred / totalBytes) * 100).

Definition thumbPath (id : jsstring) (thumb : File) : jsstring :=
  js "thumbs/" ++ id ++ js "-" ++ name thumb.

Definition videoPath (id : jsstring) (video : File) : jsstring :=
  js "videos/" ++ id ++ js "-" ++ name video.

(** The document passed to [setDoc], without [createdAt] (a server-side
    timestamp).  [data_matchDate = None] is [null]. *)
Record VideoData := mkVideoData {
  data_title : jsstring;
  data_src : jsstring;
  data_thumb : jsstring;
  storage_videoPath : jsstring;
  storage_thumbPath : jsstring;
  data_opponent : jsstring;
  data_matchDate : option jsstring;
  data_contributors : list jsstring
}.

(** [Boolean] on a string. *)
Definition nonEmpty (s : jsstring) : bool := negb (isEmpty s).

Definition buildData (f : Form) (id videoURL thumbURL : jsstring)
  (video thumb : File) : VideoData :=
  mkVideoData (title f) videoURL thumbURL
              (videoPath id video) (thumbPath id thumb)
              (opponent f)
              (if isEmpty (matchDate f) then None else Some (matchDate f))
              (filter nonEmpty [contrib1 f; contrib2 f; contrib3 f]).

Inductive Alert : Type := alertVideo | alertThumb | alertTitle.

(** What the services answer during one submission: the id drawn, whether
    each awaited call resolved ([false], [None]: it rejected), and the
    snapshots the video upload reported. *)
Record Services := mkServices {
  uuid : jsstring;
  thumbUploaded : bool;
  thumbURL : option jsstring;
  snapshots : list (Q * Q);
  videoUploaded : bool;
  videoURL : option jsstring;
  docWritten : bool
}.

(** What one click on the button leaves behind. *)
Record Outcome := mkOutcome {
  form : Form;
  alerted : option Alert;
  written : option (jsstring * VideoData)
}.

(** [handleSubmit], with no input edited while it runs.  Every rejected
    await lands in the [catch]. *)
Definition handleSubmit (env : Services) (f : Form) : Outcome :=
  match videoFile f with
  | None => mkOutcome f (Some alertVideo) None
  | Some video =>
  match thumbFile f with
  | None => mkOutcome f (Some alertThumb) None
  | Some thumb =>
  if isEmpty (trim (title f)) then mkOutcome f (Some alertTitle) None
  else
    let f1 := setProgress 0 (setState uploading f) in
    let caught g := mkOutcome (setState error g) None None in
    let id := uuid env in
    if negb (thumbUploaded env) then caught f1
    else
    match thumbURL env with
    | None => caught f1
    | Some tURL =>
    let f2 :=
      fold_left (fun g snap => setProgress (pct snap) g) (snapshots env) f1 in
    if negb (videoUploaded env) then caught f2
    else
    match videoURL env with
    | None => caught f2
    | Some vURL =>
    let data := buildData f id vURL tURL video thumb in
    if negb (docWritten env) then caught f2
    else
      mkOutcome (resetInputs (setProgress 100 (setState done f2)))
                None (Some (id, data))
    end
    end
  end
  end.

(** The submit button: [disabled={state === "uploading"}]. *)
Definition buttonDisabled (f : Form) : bool :=
  match state f with
  | uploading => true
  | _ => false
  end.

End Admin.

(** The document as the battle page reads it back: the fields the admin
    page wrote, [null] read as absent. *)
Definition stored (d : Admin.VideoData) : VideoDoc :=
  mkVideoDoc (Some (Admin.data_title d)) (Some (Admin.data_src d))
             (Some (Admin.data_thumb d)) (Some (Admin.data_opponent d))
             (Admin.data_matchDate d) (Some (Admin.data_contributors d)).

(** * The layout ([src/app/layout.tsx]) *)

Module Layout.

(** The class of a tab link: the text tab-button, a space, and then the
    word active when [pathname === href]. *)
Definition tabClass (pathname href : jsstring) : jsstring :=
  js "tab-button " ++ (if strictEq pathname href then js "active" else []).

(** The two links of the tab menu, each with its class. *)
Definition tabs (pathname : jsstring) : list (jsstring * jsstring) :=
  [(js "/battle", tabClass pathname (js "/battle"));
   (js "/frame", tabClass pathname (js "/frame"))].

End Layout.

(** ** Vocabulary of the further properties, and samples *)

Definition belowThreshold (s : Viewer) : Prop :=
  0 <= wheelAccumRef s
  /\ (isClosing s = false -> wheelAccumRef s < WHEEL_CLOSE_THRESHOLD).

Definition timersFresh (s : Viewer) : Prop :=
  Forall (fun d => (now s < d <= now s + CLOSE_DELAY)%nat) (timers s).



Definition effectsInSync (p : Page) : Prop :=
  keydownListener p = isSome (active (viewer p))
  /\ bodyOverflowHidden p = isSome (active (viewer p)).

Definition sampleVideo : Admin.File :=
  Admin.mkFile (js "clip.mp4") (js "video/mp4").

Definition sampleThumb : Admin.File :=
  Admin.mkFile (js "clip.png") (js "image/png").

Definition sampleServices : Admin.Services :=
  Admin.mkServices (js "id7") true (Some (js "https://t"))
                   [(10, 40); (40, 40)] true (Some (js "https://v")) true.

(** A form with both files and the given title, opponent and date, and
    contributors only in the first and third box. *)
Definition filledForm (t o d : jsstring) : Admin.Form :=
  Admin.mkForm t o d (js "ann") [] (js "bo")
               (Some sampleThumb) (Some sampleVideo) None Admin.idle 0.

(** The inputs of the form: everything but [state] and [progress]. *)
Definition sameInputs (f g : Admin.Form) : Prop :=
  Admin.title g = Admin.title f
  /\ Admin.opponent g = Admin.opponent f
  /\ Admin.matchDate g = Admin.matchDate f
  /\ Admin.contrib1 g = Admin.contrib1 f
  /\ Admin.contrib2 g = Admin.contrib2 f
  /\ Admin.contrib3 g = Admin.contrib3 f
  /\ Admin.thumbFile g = Admin.thumbFile f
  /\ Admin.videoFile g = Admin.videoFile f
  /\ Admin.thumbPreview g = Admin.thumbPreview f.

(** Every awaited call of the submission resolved. *)
Definition allResolved (env : Admin.Services) : bool :=
  Admin.thumbUploaded env && isSome (Admin.thumbURL env)
  && Admin.videoUploaded env && isSome (Admin.videoURL env)
  && Admin.docWritten env.

(** A snapshot of a transfer under way: 0 <= transferred <= total, and a
    total that is not zero. *)
Definition validSnapshot (snap : Q * Q) : Prop :=
  0 < snd snap /\ 0 <= fst snap <= snd snap.

(** * Properties *)

(** ** Comparisons as propositions *)

Lemma Qgtb_true (a b : Q) : Qgtb a b = true <-> b < a.
Proof.
  unfold Qgtb. rewrite negb_true_iff. split.
  - intros H. apply Qnot_le_lt. intro L.
    apply Qle_bool_iff in L. congruence.
  - intros H. destruct (Qle_bool a b) eqn:E; [|reflexivity].
    apply Qle_bool_iff in E. exfalso. exact (Qlt_not_le _ _ H E).
Qed.

Lemma Qgtb_false (a b : Q) : Qgtb a b = false <-> a <= b.
Proof.
  unfold Qgtb. rewrite negb_false_iff. apply Qle_bool_iff.
Qed.

Lemma Qle_bool_false (a b : Q) : Qle_bool a b = false <-> b < a.
Proof.
  rewrite <- Qgtb_true. unfold Qgtb.
  destruct (Qle_bool a b); simpl; intuition congruence.
Qed.

Lemma shouldClose_spec (dx dy : Q) :
  shouldClose dx dy = true <-> commitCondition dx dy.
Proof.
  unfold shouldClose, commitCondition.
  rewrite orb_true_iff, !andb_true_iff, !Qgtb_true, Qle_bool_iff.
  reflexivity.
Qed.

Lemma shouldClose_false (dx dy : Q) :
  shouldClose dx dy = false <-> ~ commitCondition dx dy.
Proof.
  rewrite <- shouldClose_spec.
  destruct (shouldClose dx dy); intuition congruence.
Qed.

(** ** closeSoft and closeHard, field by field *)

Lemma closeSoft_unfold (s : Viewer) :
  closeSoft s =
  mkViewer (active s) (isPlaying s) true (dragX s) (dragY s)
           (wheelAccumRef s) (touchStartRef s) (now s)
           (timers s ++ [(now s + CLOSE_DELAY)%nat]).
Proof. reflexivity. Qed.

Lemma closeHard_unfold (s : Viewer) :
  closeHard s = mkViewer None false false 0 0 0 None (now s) (timers s).
Proof. reflexivity. Qed.

(** Every call of [closeSoft] leaves exactly one more pending timer, so the
    growth of the queue counts the calls. *)
Lemma closeSoft_schedules_one (s : Viewer) :
  length (timers (closeSoft s)) = S (length (timers s)).
Proof.
  rewrite closeSoft_unfold. simpl. rewrite length_app. simpl. lia.
Qed.

Lemma closeHard_Closed (s : Viewer) : Closed (closeHard s).
Proof. unfold Closed. rewrite closeHard_unfold. simpl. intuition. Qed.

(** ** C1: the decision taken on touch release *)

(** C1.  On touch release with an anchor recorded while playing, the
    handler calls [closeSoft] exactly when
    (dragX > 80 and dragX > |dragY|) or (dragY > 100 and dragY >= |dragX|);
    otherwise it resets the drag vector to (0, 0), leaves the wheel energy
    as it was and schedules nothing.  (90, 50) and (50, 110) commit,
    (90, 95) does not. *)
Theorem touch_release_policy (s : Viewer) (a : Point) :
  isPlaying s = true ->
  touchStartRef s = Some a ->
  (commitCondition (dragX s) (dragY s) ->
     handleTouchEnd s = set_touchStartRef None (closeSoft s))
  /\ (~ commitCondition (dragX s) (dragY s) ->
        handleTouchEnd s
        = set_touchStartRef None (setDragY 0 (setDragX 0 s))
        /\ dragX (handleTouchEnd s) = 0
        /\ dragY (handleTouchEnd s) = 0
        /\ wheelAccumRef (handleTouchEnd s) = wheelAccumRef s
        /\ timers (handleTouchEnd s) = timers s)
  /\ (commitCondition (dragX s) (dragY s) <->
        length (timers (handleTouchEnd s)) = S (length (timers s)))
  /\ shouldClose 90 50 = true
  /\ shouldClose 50 110 = true
  /\ shouldClose 90 95 = false.
Proof.
  intros Hp Ha.
  assert (E : handleTouchEnd s =
              set_touchStartRef None
                (if shouldClose (dragX s) (dragY s)
                 then closeSoft s
                 else setDragY 0 (setDragX 0 s))).
  { unfold handleTouchEnd. rewrite Hp, Ha. reflexivity. }
  repeat split; try reflexivity.
  - intros C. apply shouldClose_spec in C. rewrite E, C. reflexivity.
  - rewrite E. apply shouldClose_false in H. rewrite H. reflexivity.
  - rewrite E. apply shouldClose_false in H. rewrite H. reflexivity.
  - rewrite E. apply shouldClose_false in H. rewrite H. reflexivity.
  - rewrite E. apply shouldClose_false in H. rewrite H. reflexivity.
  - rewrite E. apply shouldClose_false in H. rewrite H. reflexivity.
  - intros C. apply shouldClose_spec in C. rewrite E, C.
    simpl. rewrite length_app. simpl. lia.
  - intros L. apply shouldClose_spec.
    destruct (shouldClose (dragX s) (dragY s)) eqn:C; [reflexivity|].
    rewrite E in L. simpl in L. lia.
Qed.

Lemma touch_release_policy_witness :
  handleTouchEnd (playing 90 50 30 (Some (mkPoint 10 10)))
  = set_touchStartRef None
      (closeSoft (playing 90 50 30 (Some (mkPoint 10 10)))).
Proof.
  apply (touch_release_policy
           (playing 90 50 30 (Some (mkPoint 10 10))) (mkPoint 10 10)).
  - reflexivity.
  - reflexivity.
  - apply shouldClose_spec. vm_compute. reflexivity.
Defined.

(** ** C3: the hard close *)

(** C3.  [closeHard] clears the active item, the playing and closing
    flags, the drag vector, the wheel energy and the touch anchor, and a
    second call right after the first changes nothing. *)
Theorem closeHard_clears_and_is_idempotent (s : Viewer) :
  active (closeHard s) = None
  /\ isPlaying (closeHard s) = false
  /\ isClosing (closeHard s) = false
  /\ dragX (closeHard s) = 0
  /\ dragY (closeHard s) = 0
  /\ wheelAccumRef (closeHard s) = 0
  /\ touchStartRef (closeHard s) = None
  /\ closeHard (closeHard s) = closeHard s.
Proof.
  rewrite !closeHard_unfold. simpl. repeat split.
Qed.

(** ** C6: gestures are gated on playback *)

(** C6.  While [isPlaying] is false the four gesture handlers return the
    state they were given, every field of it; and [handleTouchEnd] does so
    too whenever no anchor is recorded, playing or not. *)
Theorem gestures_gated_on_playback (s : Viewer) :
  (isPlaying s = false ->
     (forall d, handleWheel d s = s)
     /\ (forall t, handleTouchStart t s = s)
     /\ (forall t, handleTouchMove t s = s)
     /\ handleTouchEnd s = s
     /\ (forall e, isGesture e = true -> step e s = s))
  /\ (touchStartRef s = None -> handleTouchEnd s = s).
Proof.
  split.
  - intros Hp.
    assert (W : forall d, handleWheel d s = s)
      by (intros; unfold handleWheel; rewrite Hp; reflexivity).
    assert (TS : forall t, handleTouchStart t s = s)
      by (intros; unfold handleTouchStart; rewrite Hp; reflexivity).
    assert (TM : forall t, handleTouchMove t s = s)
      by (intros; unfold handleTouchMove; rewrite Hp; reflexivity).
    assert (TE : handleTouchEnd s = s)
      by (unfold handleTouchEnd; rewrite Hp; reflexivity).
    repeat split; auto.
    intros e He. destruct e; try discriminate He;
      unfold step; destruct (active s); simpl; auto.
  - intros Ha. unfold handleTouchEnd. rewrite Ha.
    destruct (isPlaying s); reflexivity.
Qed.

Lemma gestures_gated_on_playback_witness :
  handleWheel 150 (paused 12 34 56 (Some (mkPoint 1 2)))
  = paused 12 34 56 (Some (mkPoint 1 2))
  /\ handleTouchEnd (playing 90 50 0 None) = playing 90 50 0 None.
Proof.
  split.
  - apply (proj1 (gestures_gated_on_playback
                    (paused 12 34 56 (Some (mkPoint 1 2))))).
    reflexivity.
  - apply (proj2 (gestures_gated_on_playback (playing 90 50 0 None))).
    reflexivity.
Defined.

(** ** C7: one wheel event *)

(** C7.  A wheel event with deltaY <= 0 changes nothing (so neither the
    wheel energy nor dragY); with deltaY > 0 while playing, the wheel
    energy grows by exactly deltaY and dragY becomes
    min(dragY + deltaY * 0.4, 240): dragY advances by at most 0.4 deltaY,
    which is less than the deltaY the energy advances by. *)
Theorem wheel_event_effect (s : Viewer) (d : Q) :
  (d <= 0 ->
     handleWheel d s = s
     /\ wheelAccumRef (handleWheel d s) = wheelAccumRef s
     /\ dragY (handleWheel d s) = dragY s)
  /\ (0 < d -> isPlaying s = true ->
        wheelAccumRef (handleWheel d s) = wheelAccumRef s + d
        /\ dragY (handleWheel d s)
           = Qmin (dragY s + d * 0.4) SWIPE_Y_DISTANCE
        /\ dragY (handleWheel d s) - dragY s <= 0.4 * d
        /\ 0.4 * d < d).
Proof.
  split.
  - intros Hd.
    assert (E : handleWheel d s = s).
    { unfold handleWheel. apply Qle_bool_iff in Hd. rewrite Hd.
      destruct (isPlaying s); reflexivity. }
    rewrite E. repeat split.
  - intros Hd Hp.
    assert (Hd' : Qle_bool d 0 = false) by (apply Qle_bool_false; exact Hd).
    assert (A : wheelAccumRef (handleWheel d s) = wheelAccumRef s + d).
    { unfold handleWheel. rewrite Hp, Hd'. simpl.
      destruct (Qle_bool WHEEL_CLOSE_THRESHOLD _); reflexivity. }
    assert (B : dragY (handleWheel d s)
                = Qmin (dragY s + d * 0.4) SWIPE_Y_DISTANCE).
    { unfold handleWheel. rewrite Hp, Hd'. simpl.
      destruct (Qle_bool WHEEL_CLOSE_THRESHOLD _); reflexivity. }
    repeat split; auto.
    + rewrite B.
      pose proof (Q.le_min_l (dragY s + d * 0.4) SWIPE_Y_DISTANCE). lra.
    + lra.
Qed.

Lemma wheel_event_effect_witness :
  (handleWheel (-5) (playing 0 10 20 None) = playing 0 10 20 None)
  /\ wheelAccumRef (handleWheel 50 (playing 0 10 20 None)) = 20 + 50.
Proof.
  split.
  - apply (proj1 (wheel_event_effect (playing 0 10 20 None) (-5))).
    vm_compute. discriminate.
  - apply (proj2 (wheel_event_effect (playing 0 10 20 None) 50)).
    + vm_compute. reflexivity.
    + reflexivity.
Defined.

(** ** C2: the wheel threshold *)

Lemma handleWheel_isPlaying (d : Q) (s : Viewer) :
  isPlaying (handleWheel d s) = isPlaying s.
Proof.
  unfold handleWheel.
  destruct (isPlaying s) eqn:P; simpl; [|exact P].
  destruct (Qle_bool d 0); [exact P|].
  destruct (Qle_bool WHEEL_CLOSE_THRESHOLD _); exact P.
Qed.

Lemma handleWheel_ignored (d : Q) (s : Viewer) :
  Qle_bool d 0 = true -> handleWheel d s = s.
Proof.
  intros H. unfold handleWheel. rewrite H.
  destruct (isPlaying s); reflexivity.
Qed.

Lemma handleWheel_counted (d : Q) (s : Viewer) :
  isPlaying s = true -> Qle_bool d 0 = false ->
  wheelAccumRef (handleWheel d s) = wheelAccumRef s + d
  /\ length (timers (handleWheel d s))
     = ((if Qle_bool WHEEL_CLOSE_THRESHOLD (wheelAccumRef s + d)
         then 1 else 0) + length (timers s))%nat
  /\ isClosing (handleWheel d s)
     = (Qle_bool WHEEL_CLOSE_THRESHOLD (wheelAccumRef s + d) || isClosing s).
Proof.
  intros P D. unfold handleWheel. rewrite P, D. simpl.
  destruct (Qle_bool WHEEL_CLOSE_THRESHOLD (wheelAccumRef s + d)); simpl.
  - rewrite length_app. simpl. repeat split. lia.
  - repeat split.
Qed.

Lemma wheels_timers (ds : list Q) :
  forall s, isPlaying s = true ->
  length (timers (wheels ds s))
  = (commitTicks (wheelAccumRef s) ds + length (timers s))%nat.
Proof.
  induction ds as [|d ds IH]; intros s P; [reflexivity|].
  change (wheels (d :: ds) s) with (wheels ds (handleWheel d s)).
  simpl commitTicks.
  destruct (Qle_bool d 0) eqn:D.
  - rewrite (handleWheel_ignored d s D). apply IH. exact P.
  - destruct (handleWheel_counted d s P D) as (A & T & _).
    rewrite IH by (rewrite handleWheel_isPlaying; exact P).
    rewrite A, T.
    destruct (Qle_bool WHEEL_CLOSE_THRESHOLD (wheelAccumRef s + d)); lia.
Qed.

(** C2, as the code has it.  While playing, [closeSoft] runs on every
    wheel tick with deltaY > 0 that leaves the accumulator at or above
    120, once per such tick: over a run of wheel events the number of calls
    is the number of those ticks.  So the tick that first reaches the
    threshold calls it, and so does every later tick with deltaY > 0; each
    call leaves the closing flag set and schedules one more timer. *)
Theorem wheel_commits_on_every_tick_at_threshold (s : Viewer) (ds : list Q) :
  isPlaying s = true ->
  closeSoftCalls s (wheels ds s) = commitTicks (wheelAccumRef s) ds
  /\ (forall d, 0 < d -> WHEEL_CLOSE_THRESHOLD <= wheelAccumRef s + d ->
        closeSoftCalls s (handleWheel d s) = 1%nat
        /\ isClosing (handleWheel d s) = true)
  /\ (forall d, d <= 0 -> closeSoftCalls s (handleWheel d s) = 0%nat).
Proof.
  intros P. unfold closeSoftCalls. repeat split.
  - rewrite wheels_timers by exact P. lia.
  - apply Qle_bool_false in H.
    destruct (handleWheel_counted d s P H) as (_ & T & _).
    apply Qle_bool_iff in H0. rewrite T, H0. lia.
  - apply Qle_bool_false in H.
    destruct (handleWheel_counted d s P H) as (_ & _ & C).
    apply Qle_bool_iff in H0. rewrite C, H0. reflexivity.
  - intros d Hd. apply Qle_bool_iff in Hd.
    rewrite handleWheel_ignored by exact Hd. lia.
Qed.

Lemma wheel_commits_on_every_tick_at_threshold_witness :
  closeSoftCalls (playing 0 0 100 None)
                 (wheels [10; 10; -3; 5; 1] (playing 0 0 100 None))
  = 3%nat.
Proof.
  apply (wheel_commits_on_every_tick_at_threshold
           (playing 0 0 100 None) [10; 10; -3; 5; 1]).
  reflexivity.
Defined.

(** C2 as stated fails: from an accumulator at 0, a tick of 120 reaches
    the threshold exactly and calls [closeSoft]; the next tick, of 10,
    finds the accumulator still above 120 and calls it again. *)
Lemma wheel_threshold_fires_again :
  isPlaying (playing 0 0 0 None) = true
  /\ wheelAccumRef (wheels [120] (playing 0 0 0 None)) = 0 + 120
  /\ closeSoftCalls (playing 0 0 0 None)
                    (wheels [120] (playing 0 0 0 None)) = 1%nat
  /\ closeSoftCalls (wheels [120] (playing 0 0 0 None))
                    (wheels [120; 10] (playing 0 0 0 None)) = 1%nat
  /\ closeSoftCalls (playing 0 0 0 None)
                    (wheels [120; 10] (playing 0 0 0 None)) = 2%nat
  /\ ~ (forall s ds, isPlaying s = true ->
          (closeSoftCalls s (wheels ds s) <= 1)%nat).
Proof.
  repeat split.
  intros H.
  specialize (H (playing 0 0 0 None) [120; 10] eq_refl).
  vm_compute in H. lia.
Qed.

(** ** C8: the wheel energy never goes down, except by a reset *)

Lemma fold_closeHard (fired : list nat) (s : Viewer) :
  fired <> [] ->
  exists s0, fold_left (fun st _ => closeHard st) fired s = closeHard s0.
Proof.
  revert s. induction fired as [|d fired IH]; intros s H; [congruence|].
  simpl. destruct fired as [|d' fired'].
  - exists s. reflexivity.
  - apply IH. discriminate.
Qed.

Lemma tick_cases (s : Viewer) :
  (filter (due (S (now s))) (timers s) = []
   /\ tick s = mkViewer (active s) (isPlaying s) (isClosing s) (dragX s)
                 (dragY s) (wheelAccumRef s) (touchStartRef s) (S (now s))
                 (filter (fun d => negb (due (S (now s)) d)) (timers s)))
  \/ (filter (due (S (now s))) (timers s) <> []
      /\ exists s0, tick s = closeHard s0).
Proof.
  unfold tick, runTimers. simpl.
  destruct (filter (due (S (now s))) (timers s)) eqn:F.
  - left. split; reflexivity.
  - right. split; [discriminate|]. apply fold_closeHard. discriminate.
Qed.

(** C8.  No gesture handler (wheel, touch start, move, end) lowers the
    wheel energy.  [onPlay] and [closeHard] set it to 0.  Every other
    operation leaves it as it is; so whenever an event lowers it, the
    event ran [onPlay] or [closeHard] (the latter from the transition
    signal or from a timer), and the energy is then 0. *)
Theorem wheel_energy_monotone (s : Viewer) :
  (forall e, isGesture e = true ->
     wheelAccumRef s <= wheelAccumRef (dispatch e s))
  /\ wheelAccumRef (onPlay s) = 0
  /\ wheelAccumRef (closeHard s) = 0
  /\ wheelAccumRef (closeSoft s) = wheelAccumRef s
  /\ wheelAccumRef (onPause s) = wheelAccumRef s
  /\ (forall v, wheelAccumRef (setActive v s) = wheelAccumRef s)
  /\ (forall e,
        wheelAccumRef s <= wheelAccumRef (step e s)
        \/ (wheelAccumRef (step e s) = 0
            /\ (step e s = onPlay s \/ exists s0, step e s = closeHard s0))).
Proof.
  assert (G : forall e, isGesture e = true ->
                wheelAccumRef s <= wheelAccumRef (dispatch e s)).
  { intros e He. destruct e; try discriminate He; simpl.
    - unfold handleWheel. destruct (isPlaying s); simpl; [|lra].
      destruct (Qle_bool deltaY 0) eqn:D; [lra|].
      apply Qle_bool_false in D.
      destruct (Qle_bool WHEEL_CLOSE_THRESHOLD _); simpl; lra.
    - unfold handleTouchStart. destruct (isPlaying s); simpl; lra.
    - unfold handleTouchMove.
      destruct (isPlaying s), (touchStartRef s); simpl; lra.
    - unfold handleTouchEnd.
      destruct (isPlaying s), (touchStartRef s); simpl; try lra.
      destruct (shouldClose _ _); simpl; lra. }
  repeat split; try reflexivity; try exact G.
  intros e.
  assert (Same : forall s', wheelAccumRef s' = wheelAccumRef s ->
                   wheelAccumRef s <= wheelAccumRef s')
    by (intros s' E; rewrite E; lra).
  destruct e; unfold step;
    try (destruct (active s); [|left; lra]).
  - left. apply Same. reflexivity.
  - left. apply Same. reflexivity.
  - left. apply Same. destruct isEscape; reflexivity.
  - left. apply (G (Wheel deltaY)). reflexivity.
  - left. apply (G (TouchStart t)). reflexivity.
  - left. apply (G (TouchMove t)). reflexivity.
  - left. apply (G TouchEnd). reflexivity.
  - right. split; [reflexivity|left; reflexivity].
  - left. apply Same. reflexivity.
  - simpl. unfold onTransitionEnd.
    destruct (isClosing s && direct).
    + right. split; [reflexivity|right; exists s; reflexivity].
    + left. lra.
  - simpl. destruct (tick_cases s) as [(_ & E) | (_ & (s0 & E))].
    + left. rewrite E. simpl. lra.
    + right. rewrite E. split; [reflexivity|right; exists s0; reflexivity].
Qed.

Lemma wheel_energy_monotone_witness :
  wheelAccumRef (playing 0 0 40 None)
  <= wheelAccumRef (dispatch (Wheel 25) (playing 0 0 40 None)).
Proof.
  apply (proj1 (wheel_energy_monotone (playing 0 0 40 None)) (Wheel 25)).
  reflexivity.
Defined.

(** ** C5: the range of the drag vector *)

Lemma handleWheel_dragNonneg (d : Q) (s : Viewer) :
  dragNonneg s -> dragNonneg (handleWheel d s).
Proof.
  intros [HX HY]. unfold handleWheel.
  destruct (isPlaying s); simpl; [|split; assumption].
  destruct (Qle_bool d 0) eqn:D; [split; assumption|].
  apply Qle_bool_false in D.
  assert (0 <= Qmin (dragY s + d * 0.4) SWIPE_Y_DISTANCE).
  { apply Q.min_glb; unfold SWIPE_Y_DISTANCE; lra. }
  destruct (Qle_bool WHEEL_CLOSE_THRESHOLD _); split; simpl; assumption.
Qed.

Lemma dispatch_dragNonneg (e : Event) (s : Viewer) :
  dragNonneg s -> dragNonneg (dispatch e s).
Proof.
  intros H. pose proof H as [HX HY].
  assert (Z0 : dragNonneg (closeHard s)) by (split; simpl; lra).
  destruct e; simpl.
  - exact H.
  - exact H.
  - destruct isEscape; exact H.
  - apply handleWheel_dragNonneg. exact H.
  - unfold handleTouchStart.
    destruct (isPlaying s); [split; simpl; lra|exact H].
  - unfold handleTouchMove.
    destruct (isPlaying s), (touchStartRef s); simpl; try exact H.
    split; simpl; apply Q.le_max_l.
  - unfold handleTouchEnd.
    destruct (isPlaying s), (touchStartRef s); simpl; try exact H.
    destruct (shouldClose _ _); split; simpl; lra.
  - exact H.
  - exact H.
  - unfold onTransitionEnd. destruct (isClosing s && direct); assumption.
  - destruct (tick_cases s) as [(_ & E) | (_ & (s0 & E))]; rewrite E.
    + exact H.
    + split; simpl; lra.
Qed.

Lemma step_dragNonneg (e : Event) (s : Viewer) :
  dragNonneg s -> dragNonneg (step e s).
Proof.
  intros H. unfold step.
  destruct e; try (destruct (active s); [|exact H]);
    apply dispatch_dragNonneg; exact H.
Qed.

Lemma run_dragNonneg (es : list Event) :
  forall s, dragNonneg s -> dragNonneg (run es s).
Proof.
  induction es as [|e es IH]; intros s H; [exact H|].
  apply (IH (step e s)). apply step_dragNonneg. exact H.
Qed.

(** C5, as the code has it.  In every reachable state dragX >= 0 and
    dragY >= 0.  A wheel event clamps dragY from above: it never moves
    dragY past 240 (SWIPE_Y_DISTANCE).  A touch move clamps from below
    only: it sets the drag vector to max(0, point - anchor) on each axis,
    whatever the distance. *)
Theorem drag_vector_range (s : Viewer) :
  reachable s ->
  (0 <= dragX s /\ 0 <= dragY s)
  /\ (forall e, 0 <= dragX (step e s) /\ 0 <= dragY (step e s))
  /\ (forall d, dragY s <= SWIPE_Y_DISTANCE ->
        dragY (handleWheel d s) <= SWIPE_Y_DISTANCE)
  /\ (forall t a, isPlaying s = true -> touchStartRef s = Some a ->
        dragX (handleTouchMove t s) = Qmax 0 (x t - x a)
        /\ dragY (handleTouchMove t s) = Qmax 0 (y t - y a)).
Proof.
  intros [es ->].
  assert (N : dragNonneg (run es initial)).
  { apply run_dragNonneg. split; simpl; lra. }
  repeat split.
  - apply N.
  - apply N.
  - apply (step_dragNonneg e _ N).
  - apply (step_dragNonneg e _ N).
  - intros d H. unfold handleWheel.
    destruct (isPlaying _); simpl; [|exact H].
    destruct (Qle_bool d 0); [exact H|].
    destruct (Qle_bool WHEEL_CLOSE_THRESHOLD _); simpl; apply Q.le_min_r.
  - unfold handleTouchMove. rewrite H, H0. reflexivity.
  - unfold handleTouchMove. rewrite H, H0. reflexivity.
Qed.

Lemma drag_vector_range_witness :
  0 <= dragX (run swipeFar initial) /\ 0 <= dragY (run swipeFar initial).
Proof.
  apply (drag_vector_range (run swipeFar initial)).
  exists swipeFar. reflexivity.
Defined.

(** C5 as stated fails: open an item, start playback, put a finger down at
    (0, 0) and move it to (500, 500).  The drag vector is then (500, 500),
    beyond 200 and 240. *)
Lemma touch_drag_exceeds_axis_maxima :
  dragX (run swipeFar initial) == 500
  /\ dragY (run swipeFar initial) == 500
  /\ ~ (forall es,
          (0 <= dragX (run es initial) <= SWIPE_X_DISTANCE)
          /\ (0 <= dragY (run es initial) <= SWIPE_Y_DISTANCE)).
Proof.
  split; [vm_compute; reflexivity|].
  split; [vm_compute; reflexivity|].
  intros H. destruct (H swipeFar) as [[_ HX] _].
  vm_compute in HX. apply HX. reflexivity.
Qed.

(** ** C4: the visual mapping *)

Lemma Qdiv_nonneg (a c : Q) : 0 <= a -> 0 < c -> 0 <= a / c.
Proof.
  intros Ha Hc. unfold Qdiv. apply Qmult_le_0_compat; [exact Ha|].
  apply Qinv_le_0_compat. apply Qlt_le_weak. exact Hc.
Qed.

Lemma progress_bounds (s : Viewer) :
  0 <= dragX s -> 0 <= dragY s -> 0 <= progress s <= 1.
Proof.
  intros HX HY. unfold progress, progressX, progressY.
  split.
  - apply Q.max_le_iff. left. apply Q.min_glb.
    + apply Qdiv_nonneg; [exact HX|reflexivity].
    + discriminate.
  - apply Q.max_lub; apply Q.le_min_r.
Qed.

(** C4.  For a drag vector with dragX >= 0 and dragY >= 0 the render
    computes progressX = min(dragX/200, 1), progressY = min(dragY/240, 1),
    progress = max of the two, translateX = dragX * 0.5,
    translateY = dragY * 0.6, and progress is in [0, 1],
    overlayAlpha = 0.8 (1 - 0.6 progress) in [0.32, 0.8],
    scale = 1 - 0.05 progress in [0.95, 1],
    opacity = 1 - 0.4 progress in [0.6, 1]; at (0, 0) progress is 0. *)
Theorem visual_mapping_bounds (s : Viewer) :
  0 <= dragX s -> 0 <= dragY s ->
  progressX s = Qmin (dragX s / 200) 1
  /\ progressY s = Qmin (dragY s / 240) 1
  /\ progress s = Qmax (progressX s) (progressY s)
  /\ translateX s = dragX s * 0.5
  /\ translateY s = dragY s * 0.6
  /\ transform (modalStyle s) = (translateX s, translateY s, scale s)
  /\ 0 <= progress s <= 1
  /\ overlayAlpha s = 0.8 * (1 - 0.6 * progress s)
  /\ 0.32 <= overlayAlpha s <= 0.8
  /\ scale s = 1 - 0.05 * progress s
  /\ 0.95 <= scale s <= 1
  /\ opacity (modalStyle s) = 1 - 0.4 * progress s
  /\ 0.6 <= opacity (modalStyle s) <= 1
  /\ (dragX s == 0 -> dragY s == 0 -> progress s == 0).
Proof.
  intros HX HY.
  pose proof (progress_bounds s HX HY) as [P0 P1].
  repeat split; try reflexivity; try assumption;
    unfold overlayAlpha, scale, modalStyle; simpl; try lra.
  intros EX EY. unfold progress, progressX, progressY.
  assert (A : Qmin (dragX s / SWIPE_X_DISTANCE) 1 == 0).
  { rewrite Q.min_l; rewrite EX; [reflexivity|discriminate]. }
  assert (B : Qmin (dragY s / SWIPE_Y_DISTANCE) 1 == 0).
  { rewrite Q.min_l; rewrite EY; [reflexivity|discriminate]. }
  rewrite A, B. apply Q.max_l. lra.
Qed.

Lemma visual_mapping_bounds_witness :
  0.32 <= overlayAlpha (playing 100 180 0 None) <= 0.8
  /\ progress (playing 100 180 0 None) == 0.75
  /\ progress (playing 300 0 0 None) == 1.
Proof.
  split; [|split; vm_compute; reflexivity].
  apply (visual_mapping_bounds (playing 100 180 0 None)).
  - vm_compute. discriminate.
  - vm_compute. discriminate.
Defined.

(** ** C9: the fallback timer *)

Lemma fold_closeHard_frame (fired : list nat) :
  forall s,
    now (fold_left (fun st _ => closeHard st) fired s) = now s
    /\ timers (fold_left (fun st _ => closeHard st) fired s) = timers s.
Proof.
  induction fired as [|d fired IH]; intros s; [split; reflexivity|].
  simpl. destruct (IH (closeHard s)) as [A B].
  rewrite A, B. split; reflexivity.
Qed.

Lemma tick_frame (s : Viewer) :
  now (tick s) = S (now s)
  /\ timers (tick s)
     = filter (fun d => negb (due (S (now s)) d)) (timers s).
Proof.
  unfold tick, runTimers. simpl.
  match goal with
  | |- context [fold_left ?f ?l ?b] =>
      destruct (fold_closeHard_frame l b) as [A B]
  end.
  rewrite A, B. split; reflexivity.
Qed.

Lemma tick_keeps_later (s : Viewer) (D : nat) :
  In D (timers s) -> (S (now s) < D)%nat -> In D (timers (tick s)).
Proof.
  intros I L. destruct (tick_frame s) as [_ T]. rewrite T.
  apply filter_In. split; [exact I|].
  unfold due. apply negb_true_iff. apply Nat.leb_gt. exact L.
Qed.

Lemma tick_fires (s : Viewer) (D : nat) :
  In D (timers s) -> D = S (now s) -> Closed (tick s).
Proof.
  intros I E. destruct (tick_cases s) as [(F & _) | (_ & (s0 & T))].
  - exfalso.
    assert (J : In D (filter (due (S (now s))) (timers s))).
    { apply filter_In. split; [exact I|].
      unfold due. apply Nat.leb_le. lia. }
    rewrite F in J. exact J.
  - rewrite T. apply closeHard_Closed.
Qed.

(** Apart from the passing of time, nothing moves the clock or removes a
    pending timer. *)
Lemma step_keeps_timer (e : Event) (s : Viewer) (D : nat) :
  isTick e = false ->
  now (step e s) = now s
  /\ (In D (timers s) -> In D (timers (step e s))).
Proof.
  intros NT.
  assert (CS : now (closeSoft s) = now s
               /\ (In D (timers s) -> In D (timers (closeSoft s)))).
  { rewrite closeSoft_unfold. simpl. split; [reflexivity|].
    intros I. apply in_or_app. left. exact I. }
  destruct e; try discriminate NT; unfold step;
    try (destruct (active s); [|split; auto]); simpl.
  - split; auto.
  - exact CS.
  - destruct isEscape; [exact CS|split; auto].
  - unfold handleWheel. destruct (isPlaying s); simpl; [|split; auto].
    destruct (Qle_bool deltaY 0); [split; auto|].
    destruct (Qle_bool WHEEL_CLOSE_THRESHOLD _); simpl; [|split; auto].
    split; [reflexivity|]. intros I. apply in_or_app. left. exact I.
  - unfold handleTouchStart. destruct (isPlaying s); split; auto.
  - unfold handleTouchMove.
    destruct (isPlaying s), (touchStartRef s); split; auto.
  - unfold handleTouchEnd.
    destruct (isPlaying s), (touchStartRef s); simpl; try (split; auto; fail).
    destruct (shouldClose _ _); simpl; [|split; auto].
    split; [reflexivity|]. intros I. apply in_or_app. left. exact I.
  - split; auto.
  - split; auto.
  - unfold onTransitionEnd. destruct (isClosing s && direct); split; auto.
Qed.

Lemma pending_timer_closes (es : list Event) :
  forall (k : nat) (s : Viewer) (D : nat),
    (0 < k)%nat -> (now s + k)%nat = D -> In D (timers s) ->
    (k <= ticks es)%nat ->
    exists es1 es2,
      es = es1 ++ es2 /\ ticks es1 = k
      /\ Closed (run es1 s) /\ now (run es1 s) = D.
Proof.
  induction es as [|e es IH]; intros k s D K N I L.
  - unfold ticks in L. simpl in L. lia.
  - destruct (isTick e) eqn:T.
    + destruct e; try discriminate T.
      assert (L' : (k <= S (ticks es))%nat) by exact L.
      destruct (Nat.eq_dec k 1) as [->|K1].
      * exists [Tick], es.
        change (run [Tick] s) with (tick s).
        split; [reflexivity|]. split; [reflexivity|]. split.
        -- apply (tick_fires s D I). lia.
        -- destruct (tick_frame s) as [A _]. rewrite A. lia.
      * destruct (tick_frame s) as [A _].
        destruct (IH (k - 1)%nat (tick s) D) as (es1 & es2 & E & C & Cl & Nw).
        -- lia.
        -- rewrite A. lia.
        -- apply tick_keeps_later; [exact I|lia].
        -- lia.
        -- exists (Tick :: es1), es2.
           change (run (Tick :: es1) s) with (run es1 (tick s)).
           split; [simpl; rewrite E; reflexivity|].
           split; [unfold ticks in *; simpl; lia|].
           split; [exact Cl|exact Nw].
    + destruct (step_keeps_timer e s D T) as [A B].
      destruct (IH k (step e s) D) as (es1 & es2 & E & C & Cl & Nw).
      * exact K.
      * rewrite A. exact N.
      * apply B. exact I.
      * unfold ticks in *. simpl in L. rewrite T in L. exact L.
      * exists (e :: es1), es2.
        change (run (e :: es1) s) with (run es1 (step e s)).
        split; [simpl; rewrite E; reflexivity|].
        split; [unfold ticks in *; simpl; rewrite T; exact C|].
        split; [exact Cl|exact Nw].
Qed.

(** C9.  [closeSoft] only sets the closing flag and schedules [closeHard]
    260 ms later.  Whatever events follow, with or without a
    transition-completion signal among them, once 260 ms have passed the
    timer has run [closeHard]: the trace has a prefix, 260 ms long, after
    which the viewer is Closed. *)
Theorem closeSoft_reaches_Closed (s : Viewer) (es : list Event) :
  (CLOSE_DELAY <= ticks es)%nat ->
  closeSoft s
  = mkViewer (active s) (isPlaying s) true (dragX s) (dragY s)
             (wheelAccumRef s) (touchStartRef s) (now s)
             (timers s ++ [(now s + 260)%nat])
  /\ exists es1 es2,
       es = es1 ++ es2
       /\ ticks es1 = CLOSE_DELAY
       /\ Closed (run es1 (closeSoft s))
       /\ now (run es1 (closeSoft s)) = (now s + CLOSE_DELAY)%nat.
Proof.
  intros L. split; [reflexivity|].
  apply (pending_timer_closes es CLOSE_DELAY (closeSoft s)).
  - unfold CLOSE_DELAY. lia.
  - reflexivity.
  - rewrite closeSoft_unfold. simpl. apply in_or_app. right. left. reflexivity.
  - exact L.
Qed.

Lemma closeSoft_reaches_Closed_witness :
  exists es1 es2,
    noSignal = es1 ++ es2
    /\ ticks es1 = CLOSE_DELAY
    /\ Closed (run es1 (closeSoft (playing 0 130 10 None)))
    /\ now (run es1 (closeSoft (playing 0 130 10 None)))
       = (now (playing 0 130 10 None) + CLOSE_DELAY)%nat.
Proof.
  apply (closeSoft_reaches_Closed (playing 0 130 10 None) noSignal).
  vm_compute. reflexivity.
Defined.

(** ** C10: the client-side search *)

Lemma startsWith_spec (q : jsstring) :
  forall f, startsWith f q = true <-> exists post, f = q ++ post.
Proof.
  induction q as [|c q IH]; intros f; simpl.
  - split; [intros _; exists f; reflexivity|reflexivity].
  - destruct f as [|d f]; simpl.
    + split; [discriminate|intros [post E]; discriminate E].
    + rewrite andb_true_iff, N.eqb_eq, IH. split.
      * intros [-> [post ->]]. exists post. reflexivity.
      * intros [post E]. injection E as -> ->. split; [reflexivity|].
        exists post. reflexivity.
Qed.

Lemma includes_spec (q : jsstring) :
  forall f, includes f q = true <-> contains f q.
Proof.
  intros f. unfold contains. split.
  - induction f as [|d f IH]; simpl; rewrite orb_true_iff.
    + intros [S|F]; [|discriminate F].
      apply startsWith_spec in S. destruct S as [post E].
      exists [], post. exact E.
    + intros [S|I].
      * apply startsWith_spec in S. destruct S as [post E].
        exists [], post. exact E.
      * destruct (IH I) as (pre & post & E).
        exists (d :: pre), post. rewrite E. reflexivity.
  - intros (pre & post & E). revert f E.
    induction pre as [|d pre IH]; intros f E.
    + assert (S : startsWith f q = true)
        by (apply startsWith_spec; exists post; exact E).
      destruct f; simpl; rewrite S; reflexivity.
    + subst f. simpl. rewrite (IH _ eq_refl). apply orb_true_r.
Qed.

Lemma kana_spec (c : N) :
  ((0x3041 <= c <= 0x3096)%N -> kana c = (c + 0x60)%N)
  /\ (~ (0x3041 <= c <= 0x3096)%N -> kana c = c).
Proof.
  unfold kana, isHiragana, fromCharCode. split.
  - intros [L U].
    apply N.leb_le in L. pose proof U as U'. apply N.leb_le in U'.
    rewrite L, U'. simpl. apply N.mod_small. lia.
  - intros H.
    destruct (0x3041 <=? c)%N eqn:L; [|reflexivity].
    destruct (c <=? 0x3096)%N eqn:U; [|reflexivity].
    exfalso. apply H. split; [apply N.leb_le, L|apply N.leb_le, U].
Qed.

Section SearchProperties.

Variable toLowerCase : jsstring -> jsstring.
Variable normalizeNFKC : jsstring -> jsstring.

Lemma truthy_spec (o : option jsstring) :
  truthy o = true <-> exists f, o = Some f /\ f <> [].
Proof.
  destruct o as [[|c f]|]; simpl; split.
  - discriminate.
  - intros (f & E & N). injection E as <-. congruence.
  - intros _. exists (c :: f). split; [reflexivity|discriminate].
  - reflexivity.
  - discriminate.
  - intros (f' & E & _). discriminate E.
Qed.

Lemma rawFields_spec (v : VideoItem) (f : jsstring) :
  In (Some f) (rawFields v) <->
  (f = title v \/ opponent v = Some f \/ matchDate v = Some f
   \/ exists cs, contributors v = Some cs /\ In f cs).
Proof.
  unfold rawFields. simpl. rewrite in_map_iff. split.
  - intros [E|[E|[E|(g & E & I)]]].
    + left. congruence.
    + right. left. exact E.
    + right. right. left. exact E.
    + right. right. right. injection E as ->.
      destruct (contributors v) as [cs|]; [|destruct I].
      exists cs. split; [reflexivity|exact I].
  - intros [E|[E|[E|(cs & E & I)]]].
    + left. congruence.
    + right. left. exact E.
    + right. right. left. exact E.
    + right. right. right. exists f. rewrite E. split; [reflexivity|exact I].
Qed.

Lemma fields_spec (v : VideoItem) (g : jsstring) :
  In g (fields toLowerCase normalizeNFKC v) <->
  exists f, presentField v f /\ g = norm toLowerCase normalizeNFKC f.
Proof.
  unfold fields, presentField. rewrite in_map_iff. split.
  - intros (o & E & I). apply filter_In in I. destruct I as [I T].
    apply truthy_spec in T. destruct T as (f & -> & N).
    exists f. split; [|symmetry; exact E].
    split; [exact N|]. apply rawFields_spec. exact I.
  - intros (f & [N R] & ->). exists (Some f). split; [reflexivity|].
    apply filter_In. split; [apply rawFields_spec; exact R|].
    apply truthy_spec. exists f. split; [reflexivity|exact N].
Qed.

Lemma matches_reflect (v : VideoItem) (qn : jsstring) :
  existsb (fun f => includes f qn) (fields toLowerCase normalizeNFKC v)
  = true <-> matches toLowerCase normalizeNFKC v qn.
Proof.
  rewrite existsb_exists. unfold matches. split.
  - intros (g & I & C). apply fields_spec in I.
    destruct I as (f & P & ->). exists f. split; [exact P|].
    apply includes_spec. exact C.
  - intros (f & P & C). exists (norm toLowerCase normalizeNFKC f).
    split; [apply fields_spec; exists f; split; [exact P|reflexivity]|].
    apply includes_spec. exact C.
Qed.

(** C10.  [norm] lowercases, applies NFKC and then shifts each code unit
    of the hiragana block U+3041..U+3096 by 0x60.  With [qn] the normal
    form of the query: if [qn] is empty the search returns the list as
    it is; otherwise it returns, in the order of the list, exactly the
    items with a present field (title, opponent, match date or a
    contributor) whose normal form contains [qn]. *)
Theorem search_selects_matching_items
  (list : Datatypes.list VideoItem) (qstr : jsstring) :
  norm toLowerCase normalizeNFKC qstr
  = map kana (normalizeNFKC (toLowerCase qstr))
  /\ (forall c, ((0x3041 <= c <= 0x3096)%N -> kana c = (c + 0x60)%N)
                /\ (~ (0x3041 <= c <= 0x3096)%N -> kana c = c))
  /\ (norm toLowerCase normalizeNFKC qstr = [] ->
        filtered toLowerCase normalizeNFKC list qstr = list)
  /\ (norm toLowerCase normalizeNFKC qstr <> [] ->
        Selects (fun v => matches toLowerCase normalizeNFKC v
                             (norm toLowerCase normalizeNFKC qstr))
                list (filtered toLowerCase normalizeNFKC list qstr)).
Proof.
  split; [reflexivity|]. split; [exact kana_spec|].
  unfold filtered. split.
  - intros ->. simpl. induction list as [|v l IH]; [reflexivity|].
    simpl. rewrite IH. reflexivity.
  - intros N.
    destruct (norm toLowerCase normalizeNFKC qstr) as [|c qn] eqn:E;
      [congruence|].
    simpl isEmpty. cbv iota.
    induction list as [|v l IH]; simpl.
    + constructor.
    + destruct (existsb _ (fields toLowerCase normalizeNFKC v)) eqn:B.
      * apply Selects_keep; [|exact IH]. apply matches_reflect. exact B.
      * apply Selects_drop; [|exact IH].
        intros M. apply matches_reflect in M. congruence.
Qed.

End SearchProperties.

Lemma search_selects_matching_items_witness :
  filtered asciiLower noNFKC [itemDog; itemNeko; itemDog] queryNeko
  = [itemNeko]
  /\ Selects (fun v => matches asciiLower noNFKC v
                         (norm asciiLower noNFKC queryNeko))
             [itemDog; itemNeko; itemDog]
             (filtered asciiLower noNFKC [itemDog; itemNeko; itemDog]
                       queryNeko)
  /\ filtered asciiLower noNFKC [itemDog; itemNeko] [] = [itemDog; itemNeko].
Proof.
  split; [vm_compute; reflexivity|]. split.
  - apply (proj2 (proj2 (proj2
             (search_selects_matching_items asciiLower noNFKC
                [itemDog; itemNeko; itemDog] queryNeko)))).
    vm_compute. discriminate.
  - apply (proj1 (proj2 (proj2
             (search_selects_matching_items asciiLower noNFKC
                [itemDog; itemNeko] [])))).
    reflexivity.
Defined.

(** * Further properties of the viewer *)

(** ** Invariants of the reachable states *)

Lemma run_invariant (P : Viewer -> Prop) :
  (forall e s, P s -> P (step e s)) ->
  forall es s, P s -> P (run es s).
Proof.
  intros Hstep es. induction es as [|e es IH]; intros s H; [exact H|].
  apply (IH (step e s)). apply Hstep. exact H.
Qed.

Lemma reachable_invariant (P : Viewer -> Prop) :
  P initial ->
  (forall e s, P s -> P (step e s)) ->
  forall s, reachable s -> P s.
Proof.
  intros H0 Hstep s [es ->]. apply run_invariant; assumption.
Qed.

(** A handler either leaves [active] alone or has run [closeHard]. *)
Lemma dispatch_active (e : Event) (s : Viewer) :
  isTick e = false -> (forall v, e <> CardClick v) ->
  active (dispatch e s) = active s \/ Closed (dispatch e s).
Proof.
  intros NT NC. destruct e; try discriminate NT; simpl.
  - exfalso. apply (NC v). reflexivity.
  - left. reflexivity.
  - left. destruct isEscape; reflexivity.
  - left. unfold handleWheel. destruct (isPlaying s); [|reflexivity].
    destruct (Qle_bool deltaY 0); [reflexivity|].
    simpl. destruct (Qle_bool WHEEL_CLOSE_THRESHOLD _); reflexivity.
  - left. unfold handleTouchStart. destruct (isPlaying s); reflexivity.
  - left. unfold handleTouchMove.
    destruct (isPlaying s), (touchStartRef s); reflexivity.
  - left. unfold handleTouchEnd.
    destruct (isPlaying s), (touchStartRef s); try reflexivity.
    simpl. destruct (shouldClose _ _); reflexivity.
  - left. reflexivity.
  - left. reflexivity.
  - unfold onTransitionEnd. destruct (isClosing s && direct).
    + right. apply closeHard_Closed.
    + left. reflexivity.
Qed.

Lemma step_closed_or_open (e : Event) (s : Viewer) :
  (active s = None -> Closed s) ->
  (active (step e s) = None -> Closed (step e s)).
Proof.
  intros I.
  assert (G : isTick e = false -> (forall v, e <> CardClick v) ->
              step e s = match active s with
                         | Some _ => dispatch e s
                         | None => s
                         end ->
              active (step e s) = None -> Closed (step e s)).
  { intros T NC E. rewrite E. destruct (active s) eqn:A.
    - destruct (dispatch_active e s T NC) as [E'|C].
      + rewrite A in E'. intros H. congruence.
      + intros _. exact C.
    - intros _. apply I. reflexivity. }
  destruct e;
    try (apply G; [reflexivity|discriminate|reflexivity]).
  - unfold step. simpl. discriminate.
  - unfold step. simpl.
    destruct (tick_cases s) as [(_ & E) | (_ & (s0 & E))]; rewrite E.
    + simpl. intros A. exact (I A).
    + intros _. apply closeHard_Closed.
Qed.

(** With no item open the viewer is in its cleared state: in every
    reachable state, [active = null] comes with [isPlaying] and
    [isClosing] false, a zero drag vector, zero wheel energy and no touch
    anchor.  (Handlers run only while the modal is rendered, and only
    [closeHard] unsets [active].) *)
Theorem no_item_means_cleared (s : Viewer) :
  reachable s -> active s = None -> Closed s.
Proof.
  intros R. revert s R.
  apply (reachable_invariant (fun s => active s = None -> Closed s)).
  - intros _. unfold Closed. simpl. repeat split.
  - intros e s. apply step_closed_or_open.
Qed.

Lemma no_item_means_cleared_witness :
  Closed (run [CardClick sampleItem; VideoPlay; Wheel 130; TransitionEnd true]
              initial).
Proof.
  apply no_item_means_cleared.
  - exists [CardClick sampleItem; VideoPlay; Wheel 130; TransitionEnd true].
    reflexivity.
  - reflexivity.
Defined.

Lemma dispatch_belowThreshold (e : Event) (s : Viewer) :
  belowThreshold s -> belowThreshold (dispatch e s).
Proof.
  intros [N B]. unfold belowThreshold.
  assert (CS : belowThreshold (closeSoft s)).
  { split; simpl; [exact N|discriminate]. }
  assert (CH : forall s0, belowThreshold (closeHard s0)).
  { intros s0. split; simpl; [lra|intros _; reflexivity]. }
  destruct e; simpl.
  - split; assumption.
  - exact CS.
  - destruct isEscape; [exact CS|split; assumption].
  - unfold handleWheel. destruct (isPlaying s); [|split; assumption].
    destruct (Qle_bool deltaY 0) eqn:D; [split; assumption|].
    apply Qle_bool_false in D. simpl.
    destruct (Qle_bool WHEEL_CLOSE_THRESHOLD (wheelAccumRef s + deltaY)) eqn:W.
    + split; simpl; [lra|discriminate].
    + apply Qle_bool_false in W. split; simpl; [lra|intros _; exact W].
  - unfold handleTouchStart. destruct (isPlaying s); split; assumption.
  - unfold handleTouchMove.
    destruct (isPlaying s), (touchStartRef s); split; assumption.
  - unfold handleTouchEnd.
    destruct (isPlaying s), (touchStartRef s); try (split; assumption).
    destruct (shouldClose _ _); simpl; split; simpl;
      try assumption; discriminate.
  - split; simpl; [lra|intros _; reflexivity].
  - split; assumption.
  - unfold onTransitionEnd. destruct (isClosing s && direct);
      [apply CH|split; assumption].
  - destruct (tick_cases s) as [(_ & E) | (_ & (s0 & E))]; rewrite E.
    + split; assumption.
    + apply CH.
Qed.

(** The wheel energy is never negative, and it is at or above the close
    threshold (120) only while the closing flag is set: in every reachable
    state with [isClosing] false, [wheelAccumRef < 120]. *)
Theorem threshold_crossing_sets_closing (s : Viewer) :
  reachable s ->
  0 <= wheelAccumRef s
  /\ (isClosing s = false -> wheelAccumRef s < WHEEL_CLOSE_THRESHOLD).
Proof.
  intros R. revert s R. apply (reachable_invariant belowThreshold).
  - split; simpl; [lra|intros _; reflexivity].
  - intros e s H. unfold step.
    destruct e; try (destruct (active s); [|exact H]);
      apply dispatch_belowThreshold; exact H.
Qed.

Lemma threshold_crossing_sets_closing_witness :
  0 <= wheelAccumRef
         (run [CardClick sampleItem; VideoPlay; Wheel 70; Wheel 60] initial)
  /\ (isClosing
        (run [CardClick sampleItem; VideoPlay; Wheel 70; Wheel 60] initial)
      = false ->
      wheelAccumRef
        (run [CardClick sampleItem; VideoPlay; Wheel 70; Wheel 60] initial)
      < WHEEL_CLOSE_THRESHOLD).
Proof.
  apply threshold_crossing_sets_closing.
  exists [CardClick sampleItem; VideoPlay; Wheel 70; Wheel 60]. reflexivity.
Defined.

(** ** The timer queue *)

Lemma step_timers (e : Event) (s : Viewer) :
  isTick e = false ->
  now (step e s) = now s
  /\ (timers (step e s) = timers s
      \/ timers (step e s) = timers s ++ [(now s + CLOSE_DELAY)%nat]).
Proof.
  intros NT.
  destruct e; try discriminate NT; unfold step;
    try (destruct (active s); [|split; auto]); simpl.
  - split; auto.
  - split; auto.
  - destruct isEscape; split; auto.
  - unfold handleWheel. destruct (isPlaying s); simpl; [|split; auto].
    destruct (Qle_bool deltaY 0); [split; auto|].
    destruct (Qle_bool WHEEL_CLOSE_THRESHOLD _); simpl; split; auto.
  - unfold handleTouchStart. destruct (isPlaying s); split; auto.
  - unfold handleTouchMove.
    destruct (isPlaying s), (touchStartRef s); split; auto.
  - unfold handleTouchEnd.
    destruct (isPlaying s), (touchStartRef s); simpl; try (split; auto; fail).
    destruct (shouldClose _ _); simpl; split; auto.
  - split; auto.
  - split; auto.
  - unfold onTransitionEnd. destruct (isClosing s && direct); split; auto.
Qed.

(** Every pending timer is due strictly in the future and at most 260 ms
    from now, in every reachable state: a deadline that has been reached is
    never left in the queue, and none is ever scheduled further away. *)
Theorem pending_timers_are_fresh (s : Viewer) :
  reachable s ->
  Forall (fun d => (now s < d <= now s + CLOSE_DELAY)%nat) (timers s).
Proof.
  intros R. revert s R. apply (reachable_invariant timersFresh).
  - constructor.
  - intros e s H. unfold timersFresh in *.
    destruct (isTick e) eqn:T.
    + destruct e; try discriminate T. unfold step. simpl.
      destruct (tick_frame s) as [A B]. rewrite A, B.
      apply Forall_forall. intros d I. apply filter_In in I.
      destruct I as [I D]. rewrite Forall_forall in H. specialize (H d I).
      unfold due in D. apply negb_true_iff, Nat.leb_gt in D. lia.
    + destruct (step_timers e s T) as [A [B|B]]; rewrite A, B.
      * exact H.
      * apply Forall_app. split; [exact H|].
        constructor; [|constructor]. unfold CLOSE_DELAY. lia.
Qed.

Lemma pending_timers_are_fresh_witness :
  Forall (fun d =>
            (now (run [CardClick sampleItem; CloseClick; Tick; CloseClick]
                      initial) < d
             <= now (run [CardClick sampleItem; CloseClick; Tick; CloseClick]
                         initial) + CLOSE_DELAY)%nat)
         (timers (run [CardClick sampleItem; CloseClick; Tick; CloseClick]
                      initial)).
Proof.
  apply pending_timers_are_fresh.
  exists [CardClick sampleItem; CloseClick; Tick; CloseClick]. reflexivity.
Defined.

(** A cleared viewer stays cleared under every event but a click on a
    card: a fallback timer or a transition signal that arrives after the
    close changes none of the viewer's state. *)
Theorem cleared_viewer_stays_cleared (s : Viewer) (e : Event) :
  Closed s -> (forall v, e <> CardClick v) -> Closed (step e s).
Proof.
  intros C NC. pose proof C as (A & _).
  destruct e; unfold step; try rewrite A; try exact C.
  - exfalso. apply (NC v). reflexivity.
  - simpl. destruct (tick_cases s) as [(_ & E) | (_ & (s0 & E))]; rewrite E.
    + exact C.
    + apply closeHard_Closed.
Qed.

Lemma cleared_viewer_stays_cleared_witness :
  Closed (step Tick
            (run [CardClick sampleItem; CloseClick; TransitionEnd true]
                 initial)).
Proof.
  apply (cleared_viewer_stays_cleared
           (run [CardClick sampleItem; CloseClick; TransitionEnd true]
                initial) Tick).
  - unfold Closed. simpl. repeat split.
  - discriminate.
Defined.

(** ** A whole swipe *)




(** ** A run of wheel events *)







(** ** The visual mapping, beyond its bounds *)

Lemma Qdiv_X (a : Q) : a / SWIPE_X_DISTANCE == a * (1 # 200).
Proof. unfold SWIPE_X_DISTANCE. field. Qed.

Lemma Qdiv_Y (a : Q) : a / SWIPE_Y_DISTANCE == a * (1 # 240).
Proof. unfold SWIPE_Y_DISTANCE. field. Qed.

Lemma progress_monotone (s s' : Viewer) :
  dragX s <= dragX s' -> dragY s <= dragY s' -> progress s <= progress s'.
Proof.
  intros HX HY. unfold progress, progressX, progressY.
  apply Q.max_le_compat; apply Q.min_le_compat_r.
  - rewrite !Qdiv_X. lra.
  - rewrite !Qdiv_Y. lra.
Qed.

(** Dragging further never undoes feedback: if neither component of the
    drag vector shrinks, progress does not shrink and the backdrop alpha,
    the scale and the content opacity do not grow. *)
Theorem visual_feedback_monotone (s s' : Viewer) :
  dragX s <= dragX s' -> dragY s <= dragY s' ->
  progress s <= progress s'
  /\ overlayAlpha s' <= overlayAlpha s
  /\ scale s' <= scale s
  /\ opacity (modalStyle s') <= opacity (modalStyle s).
Proof.
  intros HX HY. pose proof (progress_monotone s s' HX HY) as M.
  unfold overlayAlpha, scale, modalStyle. simpl. repeat split; lra.
Qed.

Lemma visual_feedback_monotone_witness :
  progress (playing 40 10 0 None) <= progress (playing 90 10 0 None).
Proof.
  apply (visual_feedback_monotone (playing 40 10 0 None)
                                  (playing 90 10 0 None)).
  - vm_compute. discriminate.
  - vm_compute. discriminate.
Defined.



(** ** The normal form of the search *)

Lemma kana_not_hiragana (c : N) : isHiragana (kana c) = false.
Proof.
  unfold kana. destruct (isHiragana c) eqn:H; [|exact H].
  unfold isHiragana in *. apply andb_true_iff in H. destruct H as [L U].
  apply N.leb_le in L. apply N.leb_le in U.
  unfold fromCharCode. rewrite N.mod_small by lia.
  apply andb_false_iff. right. apply N.leb_gt. lia.
Qed.

(** The kana shift leaves no hiragana behind and is harmless to repeat:
    no code unit of a normalized string lies in U+3041..U+3096, every
    hiragana code unit lands in the katakana block U+30A1..U+30F6, and
    shifting a second time changes nothing. *)
Theorem norm_leaves_no_hiragana
  (toLowerCase normalizeNFKC : jsstring -> jsstring) (s : jsstring) :
  forallb (fun c => negb (isHiragana c)) (norm toLowerCase normalizeNFKC s)
  = true
  /\ (forall c, isHiragana c = true ->
        (0x30A1 <= kana c <= 0x30F6)%N /\ kana c = (c + 0x60)%N)
  /\ (forall c, kana (kana c) = kana c)
  /\ map kana (norm toLowerCase normalizeNFKC s)
     = norm toLowerCase normalizeNFKC s.
Proof.
  assert (Idem : forall c, kana (kana c) = kana c).
  { intros c. unfold kana at 1. rewrite kana_not_hiragana. reflexivity. }
  repeat split.
  - unfold norm. apply forallb_forall. intros c I.
    apply in_map_iff in I. destruct I as (c0 & <- & _).
    rewrite kana_not_hiragana. reflexivity.
  - unfold kana. rewrite H. unfold isHiragana in H.
    apply andb_true_iff in H. destruct H as [L U].
    apply N.leb_le in L. apply N.leb_le in U.
    unfold fromCharCode. rewrite N.mod_small by lia. lia.
  - unfold kana. rewrite H. unfold isHiragana in H.
    apply andb_true_iff in H. destruct H as [L U].
    apply N.leb_le in L. apply N.leb_le in U.
    unfold fromCharCode. rewrite N.mod_small by lia. lia.
  - unfold kana at 1. rewrite H. unfold isHiragana in H.
    apply andb_true_iff in H. destruct H as [L U].
    apply N.leb_le in L. apply N.leb_le in U.
    unfold fromCharCode. apply N.mod_small. lia.
  - exact Idem.
  - unfold norm. rewrite map_map. apply map_ext. exact Idem.
Qed.

Lemma norm_leaves_no_hiragana_witness :
  (0x30A1 <= kana 0x3042 <= 0x30F6)%N /\ kana 0x3042 = (0x3042 + 0x60)%N.
Proof.
  apply (proj1 (proj2 (norm_leaves_no_hiragana asciiLower noNFKC []))
               0x3042%N).
  reflexivity.
Defined.

Lemma contains_trans (f q1 q2 : jsstring) :
  contains f q2 -> contains q2 q1 -> contains f q1.
Proof.
  intros (pre & post & ->) (pre' & post' & ->).
  exists (pre ++ pre'), (post' ++ post).
  rewrite <- !app_assoc. reflexivity.
Qed.

Lemma filter_filter_implied {A : Type} (p1 p2 : A -> bool) (l : list A) :
  (forall a, In a l -> p2 a = true -> p1 a = true) ->
  filter p2 (filter p1 l) = filter p2 l.
Proof.
  induction l as [|a l IH]; intros H; [reflexivity|].
  simpl. destruct (p1 a) eqn:P1; simpl.
  - rewrite IH by (intros b I; apply H; right; exact I). reflexivity.
  - destruct (p2 a) eqn:P2.
    + rewrite (H a (or_introl eq_refl) P2) in P1. discriminate P1.
    + apply IH. intros b I. apply H. right. exact I.
Qed.

(** Narrowing a query narrows the result: if the normal form of [q1]
    occurs inside the normal form of [q2], then searching for [q2] gives
    the same list whether done on all items or on the result for [q1]; in
    particular every hit for [q2] is a hit for [q1]. *)
Theorem narrower_query_filters_previous_result
  (toLowerCase normalizeNFKC : jsstring -> jsstring)
  (l : list VideoItem) (q1 q2 : jsstring) :
  contains (norm toLowerCase normalizeNFKC q2)
           (norm toLowerCase normalizeNFKC q1) ->
  filtered toLowerCase normalizeNFKC
           (filtered toLowerCase normalizeNFKC l q1) q2
  = filtered toLowerCase normalizeNFKC l q2
  /\ (forall v, In v (filtered toLowerCase normalizeNFKC l q2) ->
                In v (filtered toLowerCase normalizeNFKC l q1)).
Proof.
  intros C.
  assert (E : filtered toLowerCase normalizeNFKC
                (filtered toLowerCase normalizeNFKC l q1) q2
              = filtered toLowerCase normalizeNFKC l q2).
  { unfold filtered. apply filter_filter_implied. intros v _.
    destruct (norm toLowerCase normalizeNFKC q1) as [|c1 n1] eqn:E1;
      [reflexivity|].
    destruct (norm toLowerCase normalizeNFKC q2) as [|c2 n2] eqn:E2.
    - exfalso. destruct C as (pre & post & H).
      destruct pre; discriminate H.
    - simpl. rewrite !existsb_exists.
      intros (g & I & Inc). exists g. split; [exact I|].
      apply includes_spec. apply includes_spec in Inc.
      exact (contains_trans _ _ _ Inc C). }
  split; [exact E|].
  intros v I. rewrite <- E in I. unfold filtered in I at 1.
  apply filter_In in I. apply I.
Qed.

Lemma narrower_query_filters_previous_result_witness :
  filtered asciiLower noNFKC
    (filtered asciiLower noNFKC [itemDog; itemNeko; itemDog] [0x30CD%N])
    queryNeko
  = filtered asciiLower noNFKC [itemDog; itemNeko; itemDog] queryNeko.
Proof.
  apply (narrower_query_filters_previous_result asciiLower noNFKC
           [itemDog; itemNeko; itemDog] [0x30CD%N] queryNeko).
  exists [], [0x30B3%N]. reflexivity.
Defined.

(** * The gallery: loading, cards and effects *)

Lemma filtered_blank (toLowerCase normalizeNFKC : jsstring -> jsstring)
  (l : list VideoItem) (q : jsstring) :
  norm toLowerCase normalizeNFKC q = [] ->
  filtered toLowerCase normalizeNFKC l q = l.
Proof.
  intros E. unfold filtered. rewrite E. simpl.
  induction l as [|v l IH]; [reflexivity|]. simpl. rewrite IH. reflexivity.
Qed.

Lemma map_id_toItem (docs : list (jsstring * VideoDoc)) :
  map id (map toItem docs) = map fst docs.
Proof.
  rewrite map_map. apply map_ext. intros d. reflexivity.
Qed.

(** From mount to first view.  Until the load settles the page shows the
    loading icon, whatever is typed.  If the load fails it shows the
    no-match message, not an error.  If it succeeds and the query is blank
    (its normal form is empty), an empty collection shows the no-match
    message and any other shows a grid with one card per document, keyed
    by the document ids in the order they were returned. *)
Theorem first_view_after_load
  (toLowerCase normalizeNFKC : jsstring -> jsstring)
  (q : jsstring) (docs : list (jsstring * VideoDoc)) :
  mainView toLowerCase normalizeNFKC (setQstr q initialGallery) = LoadingIcon
  /\ mainView toLowerCase normalizeNFKC
       (setQstr q (loadVideos None initialGallery)) = EmptyMessage
  /\ (norm toLowerCase normalizeNFKC q = [] ->
      (docs = [] ->
       mainView toLowerCase normalizeNFKC
         (setQstr q (loadVideos (Some docs) initialGallery)) = EmptyMessage)
      /\ (docs <> [] ->
          exists cards,
            mainView toLowerCase normalizeNFKC
              (setQstr q (loadVideos (Some docs) initialGallery))
            = Grid cards
            /\ map card_key cards = map fst docs)).
Proof.
  split; [reflexivity|]. split; [reflexivity|].
  intros B. split.
  - intros ->. reflexivity.
  - intros NE. unfold mainView. simpl.
    rewrite (filtered_blank _ _ _ _ B).
    destruct docs as [|d docs]; [congruence|].
    exists (map card (map toItem (d :: docs))). split; [reflexivity|].
    rewrite <- (map_id_toItem (d :: docs)). rewrite map_map.
    apply map_ext. intros a. reflexivity.
Qed.

Lemma first_view_after_load_witness :
  exists cards,
    mainView asciiLower noNFKC
      (setQstr []
         (loadVideos
            (Some [([49%N], mkVideoDoc None None None None None None)])
            initialGallery))
    = Grid cards
    /\ map card_key cards = [[49%N]].
Proof.
  apply (proj2 (proj2 (proj2
           (first_view_after_load asciiLower noNFKC []
              [([49%N], mkVideoDoc None None None None None None)]))
           eq_refl)).
  discriminate.
Defined.



(** ** The Escape listener and the scroll lock follow [active] *)

Lemma sameOption_isSome {A : Type} (eqb : A -> A -> bool) (a b : option A) :
  sameOption eqb a b = true -> isSome a = isSome b.
Proof.
  destruct a, b; simpl; intros H; congruence.
Qed.

Lemma commitEffect_sync (prev : option VideoItem) (v : Viewer) (k o : bool) :
  k = isSome prev -> o = isSome prev ->
  effectsInSync (commitEffect prev (mkPage v k o))
  /\ viewer (commitEffect prev (mkPage v k o)) = v.
Proof.
  intros K O. unfold commitEffect. simpl.
  destruct (sameOption sameItem prev (active v)) eqn:S.
  - apply sameOption_isSome in S. split; [|reflexivity].
    split; simpl; congruence.
  - destruct (active v) eqn:A; simpl.
    + destruct prev; split; try reflexivity; split; simpl;
        rewrite A; reflexivity.
    + destruct prev; [|discriminate S].
      split; [|reflexivity]. split; simpl; rewrite A; reflexivity.
Qed.

Lemma pageStep_sync (e : Event) (p : Page) :
  effectsInSync p ->
  effectsInSync (pageStep e p) /\ viewer (pageStep e p) = step e (viewer p).
Proof.
  intros [K O]. unfold pageStep.
  destruct (commitEffect_sync (active (viewer p))
              (if delivered e p then dispatch e (viewer p) else viewer p)
              (keydownListener p) (bodyOverflowHidden p) K O) as [S V].
  split; [exact S|]. rewrite V.
  unfold delivered, step. rewrite K.
  destruct e; try reflexivity; destruct (active (viewer p)); reflexivity.
Qed.

Lemma pageRun_sync (es : list Event) :
  forall p, effectsInSync p ->
  effectsInSync (pageRun es p)
  /\ viewer (pageRun es p) = run es (viewer p).
Proof.
  induction es as [|e es IH]; intros p S; [split; [exact S|reflexivity]|].
  destruct (pageStep_sync e p S) as [S' V].
  destruct (IH (pageStep e p) S') as [S'' V'].
  split; [exact S''|].
  change (pageRun (e :: es) p) with (pageRun es (pageStep e p)).
  rewrite V', V. reflexivity.
Qed.

(** After any sequence of events the Escape listener is on the document
    and the body scroll is locked exactly when an item is open, so both
    are released by every path to the closed state.  Delivering key
    presses through the listener gives the same viewer states as
    delivering them while an item is open. *)
Theorem listener_and_scroll_lock_follow_active (es : list Event) :
  keydownListener (pageRun es initialPage)
  = isSome (active (viewer (pageRun es initialPage)))
  /\ bodyOverflowHidden (pageRun es initialPage)
     = isSome (active (viewer (pageRun es initialPage)))
  /\ viewer (pageRun es initialPage) = run es initial.
Proof.
  destruct (pageRun_sync es initialPage) as [[K O] V].
  - split; reflexivity.
  - repeat split; assumption.
Qed.

(** * The admin form *)

Lemma trimStart_nil (s : jsstring) :
  Admin.trimStart s = [] <-> forallb Admin.isWhiteSpace s = true.
Proof.
  induction s as [|c s IH]; simpl; [split; reflexivity|].
  destruct (Admin.isWhiteSpace c); simpl; [exact IH|].
  split; discriminate.
Qed.

Lemma trimStart_blank (s : jsstring) :
  forallb Admin.isWhiteSpace (Admin.trimStart s)
  = forallb Admin.isWhiteSpace s.
Proof.
  induction s as [|c s IH]; simpl; [reflexivity|].
  destruct (Admin.isWhiteSpace c) eqn:W; simpl; [exact IH|].
  rewrite W. reflexivity.
Qed.

Lemma forallb_rev {A : Type} (p : A -> bool) (l : list A) :
  forallb p (rev l) = forallb p l.
Proof.
  induction l as [|a l IH]; simpl; [reflexivity|].
  rewrite forallb_app, IH. simpl. rewrite andb_true_r. apply andb_comm.
Qed.

Lemma trim_blank (s : jsstring) :
  isEmpty (Admin.trim s) = true <-> forallb Admin.isWhiteSpace s = true.
Proof.
  unfold Admin.trim.
  rewrite <- trimStart_blank, <- forallb_rev, <- trimStart_nil.
  destruct (Admin.trimStart (rev (Admin.trimStart s))) as [|c r]; simpl.
  - split; reflexivity.
  - destruct (rev r); simpl; split; discriminate.
Qed.

Lemma handleSubmit_accepted (env : Admin.Services) (f : Admin.Form)
  (video thumb : Admin.File) :
  Admin.videoFile f = Some video -> Admin.thumbFile f = Some thumb ->
  isEmpty (Admin.trim (Admin.title f)) = false ->
  Admin.alerted (Admin.handleSubmit env f) = None.
Proof.
  intros V T E. unfold Admin.handleSubmit. rewrite V, T, E.
  destruct (Admin.thumbUploaded env); simpl; [|reflexivity].
  destruct (Admin.thumbURL env); [|reflexivity].
  destruct (Admin.videoUploaded env); simpl; [|reflexivity].
  destruct (Admin.videoURL env); [|reflexivity].
  destruct (Admin.docWritten env); reflexivity.
Qed.

(** Submitting checks the video file, then the thumbnail, then the title,
    and stops at the first that is missing with its alert: no video; a
    video but no thumbnail; both files but a title made of white space
    only (or empty).  A refused submission changes nothing in the form
    and writes no document; with all three present nothing is alerted. *)
Theorem submit_validation (env : Admin.Services) (f : Admin.Form) :
  (Admin.alerted (Admin.handleSubmit env f) = Some Admin.alertVideo
   <-> Admin.videoFile f = None)
  /\ (Admin.alerted (Admin.handleSubmit env f) = Some Admin.alertThumb
      <-> Admin.videoFile f <> None /\ Admin.thumbFile f = None)
  /\ (Admin.alerted (Admin.handleSubmit env f) = Some Admin.alertTitle
      <-> Admin.videoFile f <> None /\ Admin.thumbFile f <> None
          /\ forallb Admin.isWhiteSpace (Admin.title f) = true)
  /\ (Admin.alerted (Admin.handleSubmit env f) <> None ->
      Admin.form (Admin.handleSubmit env f) = f
      /\ Admin.written (Admin.handleSubmit env f) = None).
Proof.
  pose proof (trim_blank (Admin.title f)) as TB.
  destruct (Admin.videoFile f) as [video|] eqn:V.
  2:{ unfold Admin.handleSubmit. rewrite V. simpl.
      repeat split; try congruence; try discriminate.
      - intros [H _]. congruence.
      - intros (H & _). congruence. }
  destruct (Admin.thumbFile f) as [thumb|] eqn:T.
  2:{ unfold Admin.handleSubmit. rewrite V, T. simpl.
      repeat split; try congruence; try discriminate.
      intros (_ & H & _). congruence. }
  destruct (isEmpty (Admin.trim (Admin.title f))) eqn:E.
  - unfold Admin.handleSubmit. rewrite V, T, E. simpl.
    repeat split; try congruence; try discriminate.
    + intros [_ H]. discriminate H.
    + apply TB. reflexivity.
  - rewrite (handleSubmit_accepted env f video thumb V T E).
    repeat split; try congruence; try discriminate.
    + intros [_ H]. discriminate H.
    + intros (_ & _ & H). apply TB in H. discriminate H.
Qed.

Lemma submit_validation_witness :
  Admin.alerted
    (Admin.handleSubmit sampleServices (filledForm [32%N; 0x3000%N] [] []))
  = Some Admin.alertTitle
  /\ Admin.form
       (Admin.handleSubmit sampleServices (filledForm [32%N; 0x3000%N] [] []))
     = filledForm [32%N; 0x3000%N] [] [].
Proof.
  split.
  - apply (proj1 (proj2 (proj2
             (submit_validation sampleServices
                (filledForm [32%N; 0x3000%N] [] []))))).
    repeat split; discriminate.
  - apply (proj2 (proj2 (proj2
             (submit_validation sampleServices
                (filledForm [32%N; 0x3000%N] [] []))))).
    discriminate.
Defined.

Lemma reported_progress_inputs (snaps : list (Q * Q)) :
  forall g,
    sameInputs g
      (fold_left (fun h snap => Admin.setProgress (Admin.pct snap) h) snaps g)
    /\ Admin.state
         (fold_left (fun h snap => Admin.setProgress (Admin.pct snap) h)
                    snaps g)
       = Admin.state g.
Proof.
  induction snaps as [|snap snaps IH]; intros g.
  - unfold sameInputs. repeat split.
  - simpl. destruct (IH (Admin.setProgress (Admin.pct snap) g)) as [I S].
    split; [|rewrite S; reflexivity].
    unfold sameInputs in *. simpl in I. exact I.
Qed.

Lemma pct_range (bt tb : Q) :
  0 < tb -> 0 <= bt <= tb -> (0 <= Admin.pct (bt, tb) <= 100)%Z.
Proof.
  intros T [B0 B1]. unfold Admin.pct, Admin.Math_round. cbn [fst snd].
  assert (L : 0 <= bt / tb) by (apply Qdiv_nonneg; assumption).
  assert (U : bt / tb <= 1) by (apply Qle_shift_div_r; [exact T|lra]).
  revert L U. generalize (bt / tb). intros r L U. split.
  - change 0%Z with (Qfloor 0). apply Qfloor_resp_le. lra.
  - apply Z.le_trans with (Qfloor (100 + 0.5));
      [apply Qfloor_resp_le; lra|vm_compute; discriminate].
Qed.

Lemma reported_progress_range (snaps : list (Q * Q)) :
  Forall validSnapshot snaps ->
  forall g, (0 <= Admin.progress g <= 100)%Z ->
  (0 <= Admin.progress
          (fold_left (fun h snap => Admin.setProgress (Admin.pct snap) h)
                     snaps g) <= 100)%Z.
Proof.
  induction 1 as [|snap snaps V _ IH]; intros g G; [exact G|].
  simpl. apply IH. simpl. destruct snap as [bt tb].
  destruct V as [T B]. apply pct_range; assumption.
Qed.

(** The four facts about a submission that landed in the [catch]. *)
Ltac caught_case I R :=
  split;
  [discriminate
  |split;
   [intros _; split; [reflexivity|split; [reflexivity|exact I]]
   |split; [reflexivity|R]]].

(** An accepted submission ends done or in error, never still uploading.
    It ends done exactly when every awaited call resolved: then progress
    is 100, every input is cleared and one document is written under the
    drawn id.  If any call rejected it ends in error: nothing is written
    and every input, the chosen files included, is as it was, so the
    user can submit again.  With well-formed snapshots the progress shown
    stays within 0..100. *)
Theorem submit_outcome (env : Admin.Services) (f : Admin.Form)
  (video thumb : Admin.File) :
  Admin.videoFile f = Some video -> Admin.thumbFile f = Some thumb ->
  isEmpty (Admin.trim (Admin.title f)) = false ->
  (allResolved env = true ->
     Admin.form (Admin.handleSubmit env f)
     = Admin.mkForm [] [] [] [] [] [] None None None Admin.done 100
     /\ exists tURL vURL,
          Admin.thumbURL env = Some tURL /\ Admin.videoURL env = Some vURL
          /\ Admin.written (Admin.handleSubmit env f)
             = Some (Admin.uuid env,
                     Admin.buildData f (Admin.uuid env) vURL tURL
                                     video thumb))
  /\ (allResolved env = false ->
        Admin.state (Admin.form (Admin.handleSubmit env f)) = Admin.error
        /\ Admin.written (Admin.handleSubmit env f) = None
        /\ sameInputs f (Admin.form (Admin.handleSubmit env f)))
  /\ Admin.buttonDisabled (Admin.form (Admin.handleSubmit env f)) = false
  /\ (Forall validSnapshot (Admin.snapshots env) ->
      (0 <= Admin.progress (Admin.form (Admin.handleSubmit env f))
       <= 100)%Z).
Proof.
  intros V T E. unfold Admin.handleSubmit, allResolved. rewrite V, T, E.
  set (f1 := Admin.setProgress 0 (Admin.setState Admin.uploading f)).
  pose proof (reported_progress_inputs (Admin.snapshots env) f1) as [I _].
  pose proof (fun F => reported_progress_range (Admin.snapshots env) F f1)
    as R.
  set (f2 := fold_left
               (fun h snap => Admin.setProgress (Admin.pct snap) h)
               (Admin.snapshots env) f1) in *.
  assert (I1 : sameInputs f (Admin.setState Admin.error f1))
    by (unfold sameInputs; repeat split).
  assert (I2 : sameInputs f (Admin.setState Admin.error f2))
    by (unfold sameInputs in *; simpl in *; exact I).
  assert (R1 : (0 <= Admin.progress (Admin.setState Admin.error f1)
                <= 100)%Z) by (simpl; lia).
  assert (R2 : Forall validSnapshot (Admin.snapshots env) ->
               (0 <= Admin.progress (Admin.setState Admin.error f2)
                <= 100)%Z).
  { intros F. simpl. apply R; [exact F|simpl; lia]. }
  destruct (Admin.thumbUploaded env); simpl;
    [|caught_case I1 ltac:(intros _; exact R1)].
  destruct (Admin.thumbURL env) as [tURL|]; simpl;
    [|caught_case I1 ltac:(intros _; exact R1)].
  destruct (Admin.videoUploaded env); simpl;
    [|caught_case I2 ltac:(exact R2)].
  destruct (Admin.videoURL env) as [vURL|]; simpl;
    [|caught_case I2 ltac:(exact R2)].
  destruct (Admin.docWritten env); simpl;
    [|caught_case I2 ltac:(exact R2)].
  split.
  - intros _. split; [reflexivity|].
    exists tURL, vURL. repeat split.
  - split; [discriminate|]. split; [reflexivity|]. intros _. lia.
Qed.

Lemma submit_outcome_witness :
  Admin.form (Admin.handleSubmit sampleServices
                (filledForm (js "final") (js "rival") (js "2024-05-01")))
  = Admin.mkForm [] [] [] [] [] [] None None None Admin.done 100.
Proof.
  apply (proj1 (submit_outcome sampleServices
                  (filledForm (js "final") (js "rival") (js "2024-05-01"))
                  sampleVideo sampleThumb eq_refl eq_refl eq_refl)).
  reflexivity.
Defined.

(** The percentage computed from a snapshot with 0 <= transferred <= total
    and total > 0 is an integer in 0..100; it does not go down when more
    bytes have been transferred; it is 0 at the start and 100 at the end. *)
Theorem upload_percentage (bt bt' tb : Q) :
  0 < tb -> 0 <= bt -> bt <= bt' -> bt' <= tb ->
  (0 <= Admin.pct (bt, tb) <= Admin.pct (bt', tb))%Z
  /\ (Admin.pct (bt', tb) <= 100)%Z
  /\ Admin.pct (0, tb) = 0%Z
  /\ Admin.pct (tb, tb) = 100%Z.
Proof.
  intros T B0 B1 B2.
  assert (R0 : (0 <= Admin.pct (bt, tb) <= 100)%Z)
    by (apply pct_range; [exact T|split; lra]).
  assert (R1 : (0 <= Admin.pct (bt', tb) <= 100)%Z)
    by (apply pct_range; [exact T|split; lra]).
  assert (M : bt / tb <= bt' / tb).
  { unfold Qdiv. apply Qmult_le_compat_r; [exact B1|].
    apply Qinv_le_0_compat. lra. }
  repeat split; try lia.
  - unfold Admin.pct, Admin.Math_round. cbn [fst snd].
    apply Qfloor_resp_le.
    revert M. generalize (bt / tb) (bt' / tb). intros r r' M. lra.
  - unfold Admin.pct, Admin.Math_round. cbn [fst snd].
    assert (Z0 : 0 / tb * 100 + 0.5 == 0.5) by (field; lra).
    rewrite (Qfloor_comp _ _ Z0). reflexivity.
  - unfold Admin.pct, Admin.Math_round. cbn [fst snd].
    assert (Z1 : tb / tb * 100 + 0.5 == 100 + 0.5) by (field; lra).
    rewrite (Qfloor_comp _ _ Z1). reflexivity.
Qed.

Lemma upload_percentage_witness :
  (0 <= Admin.pct (1%Q, 3%Q) <= Admin.pct (2%Q, 3%Q))%Z
  /\ Admin.pct (1, 3) = 33%Z /\ Admin.pct (2, 3) = 67%Z
  /\ Admin.pct (3, 3) = 100%Z.
Proof.
  split; [|repeat split; vm_compute; reflexivity].
  apply (upload_percentage 1 2 3).
  - vm_compute. reflexivity.
  - vm_compute. discriminate.
  - vm_compute. discriminate.
  - vm_compute. discriminate.
Defined.

Lemma app_inj_same_length {A : Type} (a b c d : list A) :
  length a = length b -> a ++ c = b ++ d -> a = b /\ c = d.
Proof.
  revert b. induction a as [|u a IH]; intros [|v b] L E;
    try discriminate L.
  - split; [reflexivity|exact E].
  - simpl in L, E. injection E as -> E. injection L as L.
    destruct (IH b L E) as [-> ->]. split; reflexivity.
Qed.

(** Storage paths never collide.  A thumbnail and a video never share a
    path, whatever the ids and file names.  Two uploads of the same kind
    whose ids have the same length (as the ids drawn always have) share a
    path only if the id and the file name are both the same. *)
Theorem storage_paths_do_not_collide
  (id1 id2 : jsstring) (file1 file2 : Admin.File) :
  Admin.thumbPath id1 file1 <> Admin.videoPath id2 file2
  /\ (length id1 = length id2 ->
      Admin.thumbPath id1 file1 = Admin.thumbPath id2 file2 ->
      id1 = id2 /\ Admin.name file1 = Admin.name file2)
  /\ (length id1 = length id2 ->
      Admin.videoPath id1 file1 = Admin.videoPath id2 file2 ->
      id1 = id2 /\ Admin.name file1 = Admin.name file2).
Proof.
  split; [unfold Admin.thumbPath, Admin.videoPath; discriminate|].
  split; intros L E; unfold Admin.thumbPath, Admin.videoPath in E;
    apply app_inv_head in E;
    destruct (app_inj_same_length _ _ _ _ L E) as [-> E'];
    (split; [reflexivity|]); injection E' as E'; exact E'.
Qed.

Lemma storage_paths_do_not_collide_witness :
  js "ab" = js "ab" /\ Admin.name sampleThumb = Admin.name sampleThumb.
Proof.
  apply (proj1 (proj2 (storage_paths_do_not_collide
                         (js "ab") (js "ab") sampleThumb sampleThumb))).
  - reflexivity.
  - reflexivity.
Defined.

(** What the admin page writes is what the search sees.  For the item the
    battle page builds from a document written by the form, the fields the
    search looks at are the normal forms of exactly the non-empty entries
    among title, opponent, match date and the three contributor boxes, in
    that order; an empty date is stored as null and read as absent, and
    empty contributor boxes are dropped before storing. *)
Theorem uploaded_item_is_searchable_by_its_inputs
  (toLowerCase normalizeNFKC : jsstring -> jsstring)
  (f : Admin.Form) (docId videoURL thumbURL : jsstring)
  (videoF thumbF : Admin.File) :
  fields toLowerCase normalizeNFKC
    (toItem (docId,
             stored (Admin.buildData f docId videoURL thumbURL videoF thumbF)))
  = map (norm toLowerCase normalizeNFKC)
      (filter Admin.nonEmpty
         [Admin.title f; Admin.opponent f; Admin.matchDate f;
          Admin.contrib1 f; Admin.contrib2 f; Admin.contrib3 f])
  /\ id (toItem (docId,
                 stored (Admin.buildData f docId videoURL thumbURL
                                         videoF thumbF))) = docId
  /\ title (toItem (docId,
                    stored (Admin.buildData f docId videoURL thumbURL
                                            videoF thumbF))) = Admin.title f
  /\ src (toItem (docId,
                  stored (Admin.buildData f docId videoURL thumbURL
                                          videoF thumbF))) = videoURL
  /\ thumb (toItem (docId,
                    stored (Admin.buildData f docId videoURL thumbURL
                                            videoF thumbF))) = thumbURL
  /\ (matchDate (toItem (docId,
                         stored (Admin.buildData f docId videoURL thumbURL
                                                 videoF thumbF))) = None
      <-> Admin.matchDate f = [])
  /\ contributors (toItem (docId,
                           stored (Admin.buildData f docId videoURL thumbURL
                                                   videoF thumbF)))
     = Some (filter Admin.nonEmpty
               [Admin.contrib1 f; Admin.contrib2 f; Admin.contrib3 f]).
Proof.
  unfold fields, rawFields, toItem, stored, Admin.buildData. simpl.
  split.
  - destruct (Admin.title f), (Admin.opponent f), (Admin.matchDate f),
      (Admin.contrib1 f), (Admin.contrib2 f), (Admin.contrib3 f);
      reflexivity.
  - repeat split; try reflexivity.
    + destruct (Admin.matchDate f); simpl; [reflexivity|discriminate].
    + intros ->. reflexivity.
Qed.

(** * The tab menu *)

Lemma strictEq_spec (a b : jsstring) : strictEq a b = true <-> a = b.
Proof.
  unfold strictEq. destruct (list_eq_dec N.eq_dec a b); split;
    congruence.
Qed.

(** A tab is highlighted exactly on its own path, so the two tabs are never
    highlighted together and on any other path (the admin page, say)
    neither is. *)
Theorem at_most_one_tab_is_active (pathname : jsstring) :
  (Layout.tabClass pathname (js "/battle") = js "tab-button active"
   <-> pathname = js "/battle")
  /\ (Layout.tabClass pathname (js "/frame") = js "tab-button active"
      <-> pathname = js "/frame")
  /\ ~ (Layout.tabClass pathname (js "/battle") = js "tab-button active"
        /\ Layout.tabClass pathname (js "/frame") = js "tab-button active")
  /\ (pathname <> js "/battle" -> pathname <> js "/frame" ->
      Layout.tabs pathname
      = [(js "/battle", js "tab-button "); (js "/frame", js "tab-button ")]).
Proof.
  assert (T : forall href,
    Layout.tabClass pathname href = js "tab-button active"
    <-> pathname = href).
  { intros href. unfold Layout.tabClass.
    rewrite <- (strictEq_spec pathname href).
    destruct (strictEq pathname href).
    - split; intros _; reflexivity.
    - split; intros H; [vm_compute in H; congruence|discriminate H]. }
  assert (N : forall href, pathname <> href ->
    Layout.tabClass pathname href = js "tab-button ").
  { intros href H. unfold Layout.tabClass.
    destruct (strictEq pathname href) eqn:E;
      [apply strictEq_spec in E; congruence|reflexivity]. }
  split; [apply T|]. split; [apply T|]. split.
  - intros [B F]. apply T in B. apply T in F. subst pathname.
    discriminate F.
  - intros NB NF. unfold Layout.tabs.
    rewrite (N _ NB), (N _ NF). reflexivity.
Qed.

Lemma at_most_one_tab_is_active_witness :
  Layout.tabs (js "/admin")
  = [(js "/battle", js "tab-button "); (js "/frame", js "tab-button ")].
Proof.
  apply (proj2 (proj2 (proj2 (at_most_one_tab_is_active (js "/admin")))));
    discriminate.
Defined.

(** * The wheel closes on the total scroll *)



